(** * cytec: a shallow embedding of [cytec.py]

    The driver talks to a Cytec relay matrix over a serial line.  This
    file embeds its pure parts (the status decoder, the matrix diff, the
    token serialiser, the frame packer [splitsum], [transpose],
    [set_connection], [connections_string]) and the session functions
    [from_serial_resource], [silenced], [connections] and
    [set_connections], states the properties of the specification over
    them, and then further properties of the code.

    Conventions of the embedding:
    - Python ints are unbounded, list indices and lengths are [nat];
    - a Python exception is the [Raise] branch of [result];
    - [str] is [string], [bytes] is [list byte];
    - the pyvisa resource is a mutable object shared by every [Cytec]
      value built from it, so its contents are threaded explicitly;
    - [perf_counter], the busy wait and [print] do not influence any
      returned value or any byte written, and are left out. *)

From Stdlib Require Import Strings.String Strings.Ascii Strings.Byte.
From Stdlib Require Import DecimalString.
From stdpp Require Import base tactics option list numbers.

Local Open Scope string_scope.
Local Open Scope nat_scope.
Local Open Scope list_scope.

(** ** Exceptions and the error monad *)

Inductive exn : Type :=
  | IndexError                (* list index out of range *)
  | TypeError                 (* [^] applied to [None] *)
  | VisaIOError               (* the transport timed out *)
  | UnboundLocalError         (* a local read before assignment *)
  | UnicodeDecodeError        (* a reply that is not ASCII *)
  | CytecInitializationError
  | CytecSwitchingError.

Inductive result (A : Type) : Type :=
  | Ok (a : A)
  | Raise (e : exn).
Arguments Ok {A} a.
Arguments Raise {A} e.

#[global] Instance result_ret : MRet result := fun A a => Ok a.
#[global] Instance result_bind : MBind result := fun A B f m =>
  match m with
  | Ok a => f a
  | Raise e => Raise e
  end.

Definition returned {A} (m : result A) : bool :=
  match m with Ok _ => true | Raise _ => false end.

(** ** Constants *)

Definition MAX_COMMAND_LENGTH : nat := 60.

(** ** The packer: [splitsum] *)

Module Packer.
Section WithItems.
Context {A : Type}.

(** [result[-1].append(x)]: indexing an empty list with [-1] raises
    [IndexError]. *)
Fixpoint append_to_last (res : list (list A)) (x : A) : result (list (list A)) :=
  match res with
  | [] => Raise IndexError
  | [frame] => Ok [frame ++ [x]]
  | frame :: rest => rest' ← append_to_last rest x; Ok (frame :: rest')
  end.

(** One turn of the [for] loop, on the pair [(result, t)]. *)
Definition splitsum_step (maximum_sum : nat) (on : A → nat)
    (st : list (list A) * nat) (x : A) : result (list (list A) * nat) :=
  let '(res, t) := st in
  let n := on x in
  if maximum_sum <? t + n
  then Ok (res ++ [[x]], n)
  else res' ← append_to_last res x; Ok (res', t + n).

Fixpoint splitsum_loop (maximum_sum : nat) (on : A → nat)
    (xs : list A) (st : list (list A) * nat) : result (list (list A) * nat) :=
  match xs with
  | [] => Ok st
  | x :: rest =>
      st' ← splitsum_step maximum_sum on st x;
      splitsum_loop maximum_sum on rest st'
  end.

Definition splitsum (xs : list A) (maximum_sum : nat) (on : A → nat)
    : result (list (list A)) :=
  st ← splitsum_loop maximum_sum on xs ([[]], 0);
  Ok (fst st).

(** The cost of a frame, as the loop counts it. *)
Definition frame_sum (on : A → nat) (frame : list A) : nat :=
  sum_list_with on frame.
End WithItems.
End Packer.

Export Packer.

(** ** Tokens and frames of [set_connections] *)

(** [lengths = map(lambda c: len(c) + 1, grouped_commands)] *)
Definition token_cost (c : string) : nat := String.length c + 1.

(** [splitsum(zip(grouped_commands, lengths), MAX_COMMAND_LENGTH, on = lambda x: x[1])] *)
Definition pack (grouped_commands : list string) : result (list (list (string * nat))) :=
  splitsum (zip grouped_commands (map token_cost grouped_commands))
           MAX_COMMAND_LENGTH snd.

(** [[";".join([c for (c, _) in pack]) for pack in packs]] *)
Definition pack_tokens (p : list (string * nat)) : list string := map fst p.

Definition packed_commands (packs : list (list (string * nat))) : list string :=
  map (fun p => String.concat ";" (pack_tokens p)) packs.

(** ** The connection matrix *)

(** [CytecConnections = list[list[Optional[bool]]]]: [None] is a cell of
    unknown state. *)
Abbreviation CytecConnections := (list (list (option bool))).

(** [list(map(list, zip( *x)))]: [zip] stops at the shortest row, and
    [zip] of no rows is empty. *)
Fixpoint transpose {A} (x : list (list A)) : list (list A) :=
  match x with
  | [] => []
  | [row] => map (fun a => [a]) row
  | row :: rest => zip_with cons row (transpose rest)
  end.

(** [new_c = deepcopy(c); new_c[module][output] = value] for subscripts
    that are not negative, as [enumerate] gives them to the diff: both
    raise [IndexError] out of range.  [set_connection_int] below takes
    any [int]. *)
Definition set_connection (c : CytecConnections) (module output : nat)
    (value : bool) : result CytecConnections :=
  match c !! module with
  | None => Raise IndexError
  | Some row =>
      if decide (output < length row)
      then Ok (<[module := <[output := Some value]> row]> c)
      else Raise IndexError
  end.

Definition latch (c : CytecConnections) (module output : nat) :=
  set_connection c module output true.
Definition unlatch (c : CytecConnections) (module output : nat) :=
  set_connection c module output false.

(** ** The diff of [set_connections] *)

(** A relay operation [(command, i, j)], with [command] one of ["L"], ["U"]. *)
Definition command : Type := string * nat * nat.

(** [p ^ q] on [Optional[bool]]: [None] supports no [^]. *)
Definition py_xor (p q : option bool) : result bool :=
  match p, q with
  | Some a, Some b => Ok (xorb a b)
  | _, _ => Raise TypeError
  end.

(** Truth value of an [Optional[bool]] in a condition. *)
Definition truthy (q : option bool) : bool :=
  match q with Some true => true | _ => false end.

(** [[("L" if q else "U", i, j) for j, (p, q) in enumerate(zip(xs, ys)) if p ^ q]],
    from column [j] on. *)
Fixpoint row_commands (i j : nat) (cells : list (option bool * option bool))
    : result (list command) :=
  match cells with
  | [] => Ok []
  | (p, q) :: rest =>
      d ← py_xor p q;
      cmds ← row_commands i (S j) rest;
      Ok (if d : bool
          then ((if truthy q then "L" else "U"), i, j) :: cmds
          else cmds)
  end.

(** The outer comprehension, from row [i] on. *)
Fixpoint matrix_commands (i : nat)
    (rows : list (list (option bool) * list (option bool)))
    : result (list (list command)) :=
  match rows with
  | [] => Ok []
  | (xs, ys) :: rest =>
      r ← row_commands i 0 (zip xs ys);
      rs ← matrix_commands (S i) rest;
      Ok (r :: rs)
  end.

Definition commands (current new_connections : CytecConnections)
    : result (list (list command)) :=
  matrix_commands 0 (zip current new_connections).

(** ** The serialiser *)

(** [f"{n}"] for a non-negative int. *)
Definition str (n : nat) : string := NilEmpty.string_of_uint (Nat.to_uint n).

(** [f"{command}{i} {j}" if n == 0 else f"{command}{j}"] *)
Definition token (n : nat) (cmd : command) : string :=
  let '(command, i, j) := cmd in
  if n =? 0
  then (command ++ str i ++ " " ++ str j)%string
  else (command ++ str j)%string.

Definition grouped_commands_nested (cmds : list (list command)) : list (list string) :=
  map (imap token) cmds.

Definition grouped_commands (cmds : list (list command)) : list string :=
  concat (grouped_commands_nested cmds).

(** ** The status decoder *)

(** [b"\r"[0]], [b"0"[0]], [b"1"[0]] *)
Definition CR : byte := "013"%byte.
Definition byte_0 : byte := "0"%byte.
Definition byte_1 : byte := "1"%byte.

(** [status.split(b"\r")]: a response with [k] terminators has [k + 1]
    segments, the last one after the last terminator. *)
Fixpoint split (sep : byte) (status : list byte) : list (list byte) :=
  match status with
  | [] => [[]]
  | b :: rest =>
      if Byte.eqb b sep then [] :: split sep rest
      else match split sep rest with
           | [] => [[b]]
           | seg :: segs => (b :: seg) :: segs
           end
  end.

(** [relay_states = {b"0"[0]: False, b"1"[0]: True}] with
    [relay_states.get(b, None)]. *)
Definition relay_states : list (byte * bool) := [(byte_0, false); (byte_1, true)].

Fixpoint dict_get {V} (d : list (byte * V)) (b : byte) : option V :=
  match d with
  | [] => None
  | (k, v) :: rest => if Byte.eqb k b then Some v else dict_get rest b
  end.

(** The pure part of [connections]: decode the bytes read. *)
Definition decode_rows (status : list byte) : list (list (option bool)) :=
  map (map (dict_get relay_states)) (removelast (split CR status)).

Definition decode (status : list byte) : CytecConnections :=
  transpose (decode_rows status).

(** ** The session *)

(** The dataclass [CytecState]. *)
Record CytecState : Type := mkState {
  modules : nat;
  outputs : nat;
  answerback : bool;
  echo : bool;
  verbose : bool;
  connections_of : CytecConnections
}.

(** The pyvisa resource, as far as the driver uses it: [written] is the
    log of the strings passed to [write], oldest first, and [incoming]
    holds the bytes the instrument sends, in order. *)
Record Resource : Type := mkResource {
  written : list string;
  incoming : list byte
}.

Record Cytec : Type := mkCytec {
  resource : Resource;
  state : CytecState
}.

(** [r.write(s)] *)
Definition write (r : Resource) (s : string) : Resource :=
  {| written := written r ++ [s]; incoming := incoming r |}.

(** [r.read_bytes(n)]: exactly [n] bytes, or a timeout. *)
Definition read_bytes (r : Resource) (n : nat) : result (list byte * Resource) :=
  if decide (n ≤ length (incoming r))
  then Ok (take n (incoming r),
           {| written := written r; incoming := drop n (incoming r) |})
  else Raise VisaIOError.

(** [replace(s, answerback = False, echo = False, verbose = False)] *)
Definition silent (s : CytecState) : CytecState :=
  {| modules := modules s; outputs := outputs s;
     answerback := false; echo := false; verbose := false;
     connections_of := connections_of s |}.

(** [replace(s, connections = c)] *)
Definition with_connections (s : CytecState) (c : CytecConnections) : CytecState :=
  {| modules := modules s; outputs := outputs s;
     answerback := answerback s; echo := echo s; verbose := verbose s;
     connections_of := c |}.

Definition silenced (c : Cytec) (force : bool) : Cytec :=
  let r := resource c in
  let s := state c in
  let r' := if force || answerback s || echo s || verbose s
            then write r "A0 73;E0 73;V0 73"
            else r in
  {| resource := r'; state := silent s |}.

Definition connections (c : Cytec) : result Cytec :=
  let cn := silenced c false in
  let r := resource cn in
  let s := state cn in
  let r1 := write r "S" in
  '(status, r2) ← read_bytes r1 ((modules s + 1) * outputs s);
  let new_connections := decode status in
  Ok {| resource := r2; state := with_connections s new_connections |}.

(** The body of [set_connections] below its first [if]. *)
Definition set_connections_body (c : Cytec) (new_connections : CytecConnections)
    (verify_after : bool) : result Cytec :=
  cmds ← commands (connections_of (state c)) new_connections;
  packs ← pack (grouped_commands cmds);
  let frames := packed_commands packs in
  let cpre := silenced c false in
  let r := fold_left write frames (resource cpre) in
  if verify_after
  then
    cpost ← connections {| resource := r; state := state cpre |};
    (* [#if cpost.state.connections != new_connections:]
       [    #raise CytecSwitchingError()] *)
    match frames with
    | [] => Raise UnboundLocalError   (* [t2], [t3] are bound in the loop *)
    | _ :: _ => Ok cpost
    end
  else
    Ok {| resource := r; state := with_connections (state c) new_connections |}.

(** With [update_connections_first] the function calls itself once, on
    the refreshed session and with that flag off. *)
Definition set_connections (c : Cytec) (new_connections : CytecConnections)
    (update_connections_first verify_after : bool) : result Cytec :=
  if update_connections_first
  then c' ← connections c; set_connections_body c' new_connections verify_after
  else set_connections_body c new_connections verify_after.

(** The token frames [set_connections] packs for a current and a target
    matrix: each pack without its lengths. *)
Definition frames_of (current new_connections : CytecConnections)
    : result (list (list string)) :=
  cmds ← commands current new_connections;
  packs ← pack (grouped_commands cmds);
  Ok (map pack_tokens packs).

(** ** Vocabulary of the specification *)

(** [c[i][j]], when both subscripts are in range. *)
Definition cell (c : CytecConnections) (i j : nat) : option (option bool) :=
  row ← c !! i; row !! j.

(** [m] modules of [n] outputs each. *)
Definition has_dims (m n : nat) (c : CytecConnections) : Prop :=
  length c = m ∧ Forall (fun row => length row = n) c.

(** No cell is unknown. *)
Definition populated (c : CytecConnections) : Prop :=
  Forall (Forall (fun x : option bool => x ≠ None)) c.

(** The diff in the words of the specification: for the cells in
    row-major order, one operation where the two matrices differ, a
    latch when the target cell is connected and an unlatch otherwise. *)
Definition diff_cell (current target : CytecConnections) (i j : nat) : list command :=
  if decide (cell current i j ≠ cell target i j)
  then [(if decide (cell target i j = Some (Some true)) then "L" else "U", i, j)]
  else [].

Definition diff_row (n : nat) (current target : CytecConnections) (i : nat) : list command :=
  j ← seq 0 n; diff_cell current target i j.

Definition diff_spec (m n : nat) (current target : CytecConnections) : list command :=
  i ← seq 0 m; diff_row n current target i.




(** A token that introduces its module holds a space (["L1 0"]); a
    continuation token does not (["L15"]). *)
Definition introduces_module (tok : string) : bool :=
  existsb (Ascii.eqb " "%char) (list_ascii_of_string tok).

(** Every continuation token of the frame comes after a token of the
    frame that introduces a module; [seen] tells whether one came. *)
Fixpoint keeps_runs_from (seen : bool) (frame : list string) : bool :=
  match frame with
  | [] => true
  | tok :: rest =>
      if introduces_module tok then keeps_runs_from true rest
      else seen && keeps_runs_from seen rest
  end.

Definition keeps_runs (frame : list string) : bool := keeps_runs_from false frame.

(** The bytes a status line may hold. *)
Definition status_byte (b : byte) : Prop := b = byte_0 ∨ b = byte_1 ∨ b = CR.

(** ** The matrix as text *)

(** ["\n"] *)
Definition LF : string := String (ascii_of_nat 10) EmptyString.

(** ['1' if x else '0'] *)
Definition relay_char (x : option bool) : string := if truthy x then "1" else "0".

(** ["\n".join("".join(['1' if x else '0' for x in xs]) for xs in transpose(c))] *)
Definition connections_string (c : CytecConnections) : string :=
  String.concat LF
    (map (fun xs => String.concat "" (map relay_char xs)) (transpose c)).

(** ** The handshake *)

(** [pyvisa.constants.StatusCode]: the values a failed read leaves in
    [resource.last_status]; the driver tells only the framing error
    from the others. *)
Inductive StatusCode : Type :=
  | error_serial_framing
  | error_serial_parity
  | error_serial_overrun
  | error_timeout
  | error_io.

#[global] Instance StatusCode_eq_dec : EqDecision StatusCode.
Proof. solve_decision. Defined.

#[global] Instance byte_eq_dec : EqDecision byte := Byte.byte_eq_dec.

Definition answerback_only : string := "A0 73;E0 73;V0 73;A1 73".

(** [";".join(["P2 1 73", f"P10 {state.modules} 73", f"P20 {state.outputs} 73"])] *)
Definition system_config (state : CytecState) : string :=
  String.concat ";"
    ["P2 1 73";
     ("P10 " ++ str (modules state) ++ " 73")%string;
     ("P20 " ++ str (outputs state) ++ " 73")%string].

(** [3 * b"0\r"] *)
Definition config_ack : list byte := [byte_0; CR; byte_0; CR; byte_0; CR].

(** What [resource.query(message)] of pyvisa does after it wrote the
    message and read one line: it returns the line, decoded as ASCII
    and without its terminator; or the read fails, [VisaIOError] is
    raised and the cause is left in [resource.last_status]; or the
    line holds a byte that is not ASCII and decoding raises
    [UnicodeDecodeError]. *)
Inductive query_outcome : Type :=
  | Reply (rv : string)
  | VisaError (last_status : StatusCode)
  | DecodeError.

Section Handshake.
(** The driver takes [query] as given, and so does the model: any
    function from the resource and the message to the resource
    afterwards and the outcome. *)
Variable query : Resource → string → Resource * query_outcome.

(** The first [try] of [from_serial_resource].  [except VisaIOError]
    catches nothing else, so a [UnicodeDecodeError] leaves the
    function; and an exception of the second query is raised inside
    the handler and is not caught. *)
Definition probe (resource : Resource) : result Resource :=
  match query resource answerback_only with
  | (r1, Reply rv) =>
      if String.eqb rv "0" then Ok r1 else Raise CytecInitializationError
  | (_, DecodeError) => Raise UnicodeDecodeError
  | (r1, VisaError last_status) =>
      if decide (last_status = error_serial_framing)
      then match query r1 answerback_only with
           | (r2, Reply rv) =>
               if String.eqb rv "0" then Ok r2 else Raise CytecInitializationError
           | (_, DecodeError) => Raise UnicodeDecodeError
           | (_, VisaError _) => Raise VisaIOError
           end
      else Raise CytecInitializationError
  end.

(** The second [try]: [except VisaIOError] turns a failed read into a
    [CytecInitializationError]. *)
Definition configure (resource : Resource) (state : CytecState) : result Resource :=
  let r1 := write resource (system_config state) in
  match read_bytes r1 (2 * 3) with
  | Ok (rv, r2) =>
      if decide (rv = config_ack) then Ok r2 else Raise CytecInitializationError
  | Raise VisaIOError => Raise CytecInitializationError
  | Raise e => Raise e
  end.

Definition from_serial_resource (resource : Resource) (state : CytecState)
    : result Cytec :=
  r1 ← probe resource;
  r2 ← configure r1 state;
  connections {| resource := r2; state := state |}.
End Handshake.

(** A line read from the bytes to come: the bytes before the first
    terminator, and the bytes after it. *)
Fixpoint read_line (bs : list byte) : option (list byte * list byte) :=
  match bs with
  | [] => None
  | b :: rest =>
      if Byte.eqb b CR then Some ([], rest)
      else match read_line rest with
           | Some (line, rest') => Some (b :: line, rest')
           | None => None
           end
  end.

(** A byte the ASCII codec decodes: one below 128. *)
Definition ascii_byte (b : byte) : bool := (Byte.to_N b <? 128)%N.

(** A [query] on a line without faults: the read times out when no
    terminator comes, and the line read is decoded as ASCII. *)
Definition query_line (r : Resource) (message : string)
    : Resource * query_outcome :=
  let r1 := write r message in
  match read_line (incoming r1) with
  | Some (line, rest) =>
      ({| written := written r1; incoming := rest |},
       if forallb ascii_byte line
       then Reply (string_of_list_byte line)
       else DecodeError)
  | None => (r1, VisaError error_timeout)
  end.

(** A [query] on a line whose first read, on a resource that wrote
    nothing yet, hits a framing error. *)
Definition query_framing_once (r : Resource) (message : string)
    : Resource * query_outcome :=
  match written r with
  | [] => (write r message, VisaError error_serial_framing)
  | _ :: _ => query_line r message
  end.

(** [CytecState()] *)
Definition CytecState_default : CytecState :=
  mkState 8 16 true false false [[]].

(** ** Setting a cell with any [int] subscripts *)

(** A subscript [k] on a list of [len] items, as [list] resolves it: a
    negative one counts from the end; [None] stands for [IndexError]. *)
Definition py_index (len : nat) (k : Z) : option nat :=
  let k' := if (k <? 0)%Z then (k + Z.of_nat len)%Z else k in
  if (k' <? 0)%Z || (Z.of_nat len <=? k')%Z then None else Some (Z.to_nat k').

(** [new_c = deepcopy(c); new_c[module][output] = value] *)
Definition set_connection_int (c : CytecConnections) (module output : Z)
    (value : bool) : result CytecConnections :=
  match py_index (length c) module with
  | None => Raise IndexError
  | Some i =>
      match c !! i with
      | None => Raise IndexError
      | Some row =>
          match py_index (length row) output with
          | None => Raise IndexError
          | Some j => Ok (<[i := <[j := Some value]> row]> c)
          end
      end
  end.

(** The cell a status byte decodes to, in the words of the
    specification: ['0'] disconnected, ['1'] connected, any other byte
    unknown. *)
Definition cell_of_byte (b : byte) : option bool :=
  if decide (b = byte_0) then Some false
  else if decide (b = byte_1) then Some true
  else None.

(** ** More vocabulary *)

(** The length of the shortest row: where [zip] stops. *)
Fixpoint shortest_row {A} (x : list (list A)) : nat :=
  match x with
  | [] => 0
  | [row] => length row
  | row :: rest => Nat.min (length row) (shortest_row rest)
  end.

(** [x[i][j]] for any cells. *)
Definition at_ {A} (x : list (list A)) (i j : nat) : option A :=
  row ← x !! i; row !! j.

(** The wire form of a status: for each output line the relay bits of
    the modules, then the terminator. *)
Definition bit_byte (b : bool) : byte := if b then byte_1 else byte_0.

Definition status_of_lines (lines : list (list bool)) : list byte :=
  concat (map (fun line => map bit_byte line ++ [CR]) lines).

(** The pairs of cells the diff compares: [zip] on the rows, then on
    the cells of each pair of rows. *)
Definition compared (current target : CytecConnections)
    : list (option bool * option bool) :=
  concat (map (fun '(xs, ys) => zip xs ys) (zip current target)).

(** The other tag. *)
Definition opposite (op : string) : string :=
  if String.eqb op "L" then "U" else "L".

(** The frames the loop of [splitsum] opens on [xs] when the frame it
    is filling costs [t]. *)
Fixpoint opens {A} (maximum_sum : nat) (on : A → nat) (t : nat) (xs : list A) : nat :=
  match xs with
  | [] => 0
  | x :: rest =>
      if maximum_sum <? t + on x
      then S (opens maximum_sum on (on x) rest)
      else opens maximum_sum on (t + on x) rest
  end.

(** Every frame but the first starts with an item that did not fit
    into the frame before it. *)
Fixpoint greedy {A} (maximum_sum : nat) (on : A → nat) (frames : list (list A)) : Prop :=
  match frames with
  | [] => True
  | f :: rest =>
      match rest with
      | [] => True
      | [] :: _ => False
      | (x :: _) :: _ => maximum_sum < frame_sum on f + on x
      end ∧ greedy maximum_sum on rest
  end.

(** The part of [a] that lies inside [b]: the rows both have, each cut
    to the length of the row of [b]. *)
Definition crop (a b : CytecConnections) : CytecConnections :=
  zip_with (fun x y : list (option bool) => take (length y) x) a b.

(** A pair of compared cells one of which is unknown. *)
Definition unknown_pair (pq : option bool * option bool) : Prop :=
  pq.1 = None ∨ pq.2 = None.

(** ** Inputs used in the examples below *)

Definition falses (n : nat) : list (option bool) := replicate n (Some false).
Definition trues (n : nat) : list (option bool) := replicate n (Some true).

(** A token of 60 characters and one of 64, of the shape the serialiser
    gives to module and output numbers of 29 and of 31 digits. *)
Definition token_60 : string :=
  "L10000000000000000000000000000 10000000000000000000000000000".
Definition token_64 : string :=
  "L1000000000000000000000000000000 1000000000000000000000000000000".

(** * Properties *)

(** ** The packer *)

Section PackerFacts.
Context {A : Type} (maximum_sum : nat) (on : A → nat).

Lemma append_to_last_snoc (fs : list (list A)) (cur : list A) (x : A) :
  append_to_last (fs ++ [cur]) x = Ok (fs ++ [cur ++ [x]]).
Proof.
  induction fs as [|f fs IH]; [reflexivity|].
  simpl. rewrite IH.
  destruct (fs ++ [cur]) eqn:E; [by destruct fs|]. reflexivity.
Qed.

Lemma frame_sum_snoc (cur : list A) (x : A) :
  frame_sum on (cur ++ [x]) = frame_sum on cur + on x.
Proof. unfold frame_sum. rewrite sum_list_with_app. simpl. lia. Qed.

(** The loop, started on a non-empty list of frames whose last frame
    costs [t]: it returns, keeps the items in order, and keeps every
    frame within the maximum when every item fits. *)
Lemma splitsum_loop_inv (xs : list A) :
  ∀ (fs : list (list A)) (cur : list A) (t : nat),
  ∃ fs' cur' t',
    splitsum_loop maximum_sum on xs (fs ++ [cur], t) = Ok (fs' ++ [cur'], t')
    ∧ concat (fs' ++ [cur']) = concat (fs ++ [cur]) ++ xs
    ∧ (Forall (fun x => on x ≤ maximum_sum) xs →
       t = frame_sum on cur →
       Forall (fun f => frame_sum on f ≤ maximum_sum) (fs ++ [cur]) →
       Forall (fun f => frame_sum on f ≤ maximum_sum) (fs' ++ [cur'])).
Proof.
  induction xs as [|x xs IH]; intros fs cur t.
  - exists fs, cur, t. simpl. rewrite app_nil_r. auto.
  - simpl. destruct (maximum_sum <? t + on x) eqn:Hcmp.
    + destruct (IH (fs ++ [cur]) [x] (on x)) as (fs' & cur' & t' & Hrun & Hcat & Hfit).
      exists fs', cur', t'. simpl. split; [exact Hrun|]. split.
      * rewrite Hcat, !concat_app. simpl. rewrite !app_nil_r, <- !app_assoc.
        reflexivity.
      * intros Hxs _ Hfs. inversion Hxs; subst. apply Hfit; [assumption| |].
        -- unfold frame_sum. simpl. lia.
        -- apply Forall_app. split; [exact Hfs|].
           constructor; [|constructor]. unfold frame_sum. simpl. lia.
    + rewrite append_to_last_snoc. simpl.
      destruct (IH fs (cur ++ [x]) (t + on x)) as (fs' & cur' & t' & Hrun & Hcat & Hfit).
      exists fs', cur', t'. split; [exact Hrun|]. split.
      * rewrite Hcat, !concat_app. simpl. rewrite !app_nil_r, <- !app_assoc.
        reflexivity.
      * intros Hxs Ht Hfs. inversion Hxs; subst. apply Hfit; [assumption| |].
        -- by rewrite frame_sum_snoc.
        -- apply Forall_app in Hfs as [Hfs _]. apply Forall_app. split; [exact Hfs|].
           constructor; [|constructor]. rewrite frame_sum_snoc.
           apply Nat.ltb_ge in Hcmp. lia.
Qed.

Lemma splitsum_inv (xs : list A) :
  ∃ frames,
    splitsum xs maximum_sum on = Ok frames
    ∧ frames ≠ []
    ∧ concat frames = xs
    ∧ (Forall (fun x => on x ≤ maximum_sum) xs →
       Forall (fun f => frame_sum on f ≤ maximum_sum) frames).
Proof.
  destruct (splitsum_loop_inv xs [] [] 0) as (fs' & cur' & t' & Hrun & Hcat & Hfit).
  exists (fs' ++ [cur']). unfold splitsum. simpl in Hrun. rewrite Hrun. simpl.
  split; [reflexivity|]. split; [by destruct fs'|]. split; [exact Hcat|].
  intros Hxs. apply Hfit; [assumption|reflexivity|].
  constructor; [|constructor]. unfold frame_sum. simpl. lia.
Qed.
End PackerFacts.

(** The packer returns for every input, by the loop invariant. *)
Lemma pack_inv (tokens : list string) :
  ∃ packs,
    pack tokens = Ok packs
    ∧ packs ≠ []
    ∧ concat packs = zip tokens (map token_cost tokens)
    ∧ (Forall (fun c => token_cost c ≤ MAX_COMMAND_LENGTH) tokens →
       Forall (fun p => frame_sum snd p ≤ MAX_COMMAND_LENGTH) packs).
Proof.
  destruct (splitsum_inv MAX_COMMAND_LENGTH snd (zip tokens (map token_cost tokens)))
    as (packs & Hrun & Hne & Hcat & Hfit).
  exists packs. repeat split; try assumption.
  intros Htok. apply Hfit. clear -Htok.
  induction Htok as [|c cs Hc _ IH]; simpl; constructor; assumption.
Qed.

(** In a pack every second component is the cost of its token. *)
Lemma zip_cost_sum (p : list (string * nat)) (tokens : list string) :
  Forall (fun x => x ∈ zip tokens (map token_cost tokens)) p →
  frame_sum snd p = sum_list_with token_cost (pack_tokens p).
Proof.
  induction 1 as [|[c k] p Hx _ IH]; [reflexivity|].
  unfold frame_sum, pack_tokens in *. simpl. rewrite IH. f_equal.
  clear -Hx. induction tokens as [|d ds IHd]; simpl in Hx.
  - by apply elem_of_nil in Hx.
  - apply elem_of_cons in Hx as [Heq|Hin]; [by inversion Heq|by apply IHd].
Qed.

(** C4, as stated, fails: a token of 64 characters exceeds the maximum
    of 60, and the packer returns frames for it, the token alone in the
    second one. *)
Lemma oversize_token_is_packed :
  MAX_COMMAND_LENGTH < String.length token_64
  ∧ pack [token_64] = Ok [[]; [(token_64, 65)]]
  ∧ returned (pack [token_64]) = true.
Proof. repeat split; vm_compute; lia. Qed.

(** C4 (amended). The packer never fails and raises no error of its
    own: for every list of items, every maximum and every cost function
    it returns frames, whether or not the items fit; so does the packing
    of any list of tokens in [set_connections]. *)
Theorem splitsum_never_fails :
  (∀ (A : Type) (xs : list A) (maximum_sum : nat) (on : A → nat),
     ∃ frames, splitsum xs maximum_sum on = Ok frames)
  ∧ (∀ tokens : list string, ∃ packs, pack tokens = Ok packs).
Proof.
  split.
  - intros A xs maximum_sum on.
    destruct (splitsum_inv maximum_sum on xs) as (frames & Hrun & _).
    by exists frames.
  - intros tokens. destruct (pack_inv tokens) as (packs & Hrun & _).
    by exists packs.
Qed.

(** C5, as stated, fails: a single token of 60 characters costs 61, and
    the frame that holds it exceeds the maximum of 60. *)
Lemma frame_over_limit :
  pack [token_60] = Ok [[]; [(token_60, 61)]]
  ∧ MAX_COMMAND_LENGTH <
      sum_list_with (fun c => String.length c + 1) (pack_tokens [(token_60, 61)]).
Proof. split; vm_compute; [reflexivity|lia]. Qed.

(** C5 (amended). For every list of tokens each of which fits on its
    own, [len(token) + 1 <= MAX_COMMAND_LENGTH], the packer returns
    frames, and in every frame the sum of [len(token) + 1] over its
    tokens is at most [MAX_COMMAND_LENGTH] (60). *)
Theorem frames_within_limit (tokens : list string)
    (Hfit : Forall (fun c => String.length c + 1 ≤ MAX_COMMAND_LENGTH) tokens) :
  ∃ packs,
    pack tokens = Ok packs
    ∧ Forall (fun p => sum_list_with (fun c => String.length c + 1) (pack_tokens p)
                       ≤ MAX_COMMAND_LENGTH) packs.
Proof.
  destruct (pack_inv tokens) as (packs & Hrun & _ & Hcat & Hsum).
  exists packs. split; [exact Hrun|].
  specialize (Hsum Hfit).
  assert (Hin : Forall (Forall (fun x => x ∈ zip tokens (map token_cost tokens))) packs).
  { rewrite <- Hcat. clear. apply Forall_forall. intros p Hp.
    apply Forall_forall. intros x Hx.
    apply list_elem_of_In, in_concat. exists p.
    split; assumption. }
  clear Hcat Hrun. induction Hsum as [|p ps Hp _ IH]; [constructor|].
  inversion Hin; subst. constructor; [|by apply IH].
  erewrite <- zip_cost_sum; eauto.
Qed.

Lemma frames_within_limit_witness :
  Forall (fun c => String.length c + 1 ≤ MAX_COMMAND_LENGTH) ["L0 0"; "L1 1"]
  ∧ ∃ packs,
      pack ["L0 0"; "L1 1"] = Ok packs
      ∧ Forall (fun p => sum_list_with (fun c => String.length c + 1) (pack_tokens p)
                         ≤ MAX_COMMAND_LENGTH) packs.
Proof.
  assert (H : Forall (fun c => String.length c + 1 ≤ MAX_COMMAND_LENGTH)
                     ["L0 0"; "L1 1"])
    by (repeat constructor; vm_compute; lia).
  split; [exact H|]. exact (frames_within_limit ["L0 0"; "L1 1"] H).
Defined.

(** C6. For every list of input tokens the packer returns frames whose
    token sequences, concatenated in emission order, are exactly the
    input list: every token is in one frame, at its original place.
    The same holds for [splitsum] on any items, maximum and cost. *)
Theorem frames_concat_is_input :
  (∀ (A : Type) (xs : list A) (maximum_sum : nat) (on : A → nat),
     ∃ frames, splitsum xs maximum_sum on = Ok frames ∧ concat frames = xs)
  ∧ (∀ tokens : list string,
       ∃ packs, pack tokens = Ok packs ∧ concat (map pack_tokens packs) = tokens).
Proof.
  split.
  - intros A xs maximum_sum on.
    destruct (splitsum_inv maximum_sum on xs) as (frames & Hrun & _ & Hcat & _).
    by exists frames.
  - intros tokens. destruct (pack_inv tokens) as (packs & Hrun & _ & Hcat & _).
    exists packs. split; [exact Hrun|].
    unfold pack_tokens. rewrite <- concat_map, Hcat.
    apply fst_zip. by rewrite length_map.
Qed.

(** ** The status decoder *)

Section DecoderFacts.
Context {A : Type} (P : A → Prop).

Lemma Forall_zip_with_cons (row : list A) (t : list (list A)) :
  Forall P row → Forall (Forall P) t → Forall (Forall P) (zip_with cons row t).
Proof.
  intros Hrow. revert t.
  induction Hrow as [|a row Ha _ IH]; intros t Ht; [constructor|].
  destruct Ht as [|r t Hr Ht]; simpl; [constructor|].
  constructor; [by constructor|by apply IH].
Qed.

(** Transposition only rearranges cells. *)
Lemma Forall_transpose (x : list (list A)) :
  Forall (Forall P) x → Forall (Forall P) (transpose x).
Proof.
  induction 1 as [|row rest Hrow Hrest IH]; [constructor|].
  destruct rest as [|row' rest'].
  - simpl. clear -Hrow.
    induction Hrow; simpl; constructor; [by repeat constructor|assumption].
  - change (transpose (row :: row' :: rest'))
      with (zip_with cons row (transpose (row' :: rest'))).
    by apply Forall_zip_with_cons.
Qed.

Lemma Forall_map_intro {B} (f : B → A) (l : list B) :
  Forall (fun x => P (f x)) l → Forall P (map f l).
Proof. induction 1; simpl; by constructor. Qed.

Lemma Forall_removelast (l : list A) : Forall P l → Forall P (removelast l).
Proof.
  induction 1 as [|a l Ha Hl IH]; [constructor|].
  simpl. destruct l; [constructor|]. by constructor.
Qed.
End DecoderFacts.

Lemma split_status_bytes (status : list byte) :
  Forall status_byte status →
  Forall (Forall (fun b => b = byte_0 ∨ b = byte_1)) (split CR status).
Proof.
  induction 1 as [|b rest Hb _ IH]; simpl; [by repeat constructor|].
  destruct (Byte.eqb b CR) eqn:E; [by constructor|].
  apply Byte.eqb_false in E.
  destruct Hb as [Hb|[Hb|Hb]]; [| |contradiction];
    (destruct (split CR rest) as [|seg segs]; [by repeat constructor; auto|];
     inversion IH; subst; constructor; [constructor; auto|assumption]).
Qed.

Lemma relay_states_known (b : byte) :
  b = byte_0 ∨ b = byte_1 → dict_get relay_states b ≠ None.
Proof. by intros [->| ->]. Qed.

Lemma relay_states_other (b : byte) :
  b ≠ byte_0 → b ≠ byte_1 → dict_get relay_states b = None.
Proof.
  intros H0 H1. unfold relay_states. simpl.
  destruct (Byte.eqb byte_0 b) eqn:E0; [apply Byte.byte_dec_bl in E0; congruence|].
  destruct (Byte.eqb byte_1 b) eqn:E1; [apply Byte.byte_dec_bl in E1; congruence|].
  reflexivity.
Qed.

(** C3, as stated, fails: the byte ['2'] is neither ['0'] nor ['1'] nor
    the terminator; the status read of a 1 x 1 matrix that receives it
    raises nothing and stores an unknown cell. *)
Lemma status_read_keeps_unknown :
  let c := {| resource := {| written := []; incoming := ["2"%byte; CR] |};
              state := mkState 1 1 false false false [[]] |} in
  connections c
  = Ok {| resource := {| written := ["S"]; incoming := [] |};
          state := mkState 1 1 false false false [[None]] |}
  ∧ ¬ populated [[None]].
Proof.
  split; [reflexivity|].
  intros H. inversion H as [|? ? Hrow _]; subst.
  inversion Hrow as [|? ? Hcell _]; subst. by apply Hcell.
Qed.

(** A response of status bytes decodes to known cells only. *)
Lemma decode_populated (status : list byte) :
  Forall status_byte status → populated (decode status).
Proof.
  intros Hbytes. unfold populated, decode, decode_rows.
  apply Forall_transpose, Forall_map_intro.
  pose proof (Forall_removelast _ _ (split_status_bytes _ Hbytes)) as Hsegs.
  induction Hsegs as [|seg segs Hseg _ IH]; constructor; [|exact IH].
  apply Forall_map_intro.
  induction Hseg as [|b bs Hb _ IHb]; constructor; [|exact IHb].
  by apply relay_states_known.
Qed.

(** C9. With 2 modules and 2 outputs, the status response
    [b"10\r01\r"] (6 bytes) is split on the terminator, the trailing
    empty segment is dropped, the per-output rows are [[true, false]]
    and [[false, true]], and the matrix returned after transposition is
    [[[true, false], [false, true]]]. *)
Theorem status_scenario (c : Cytec) (rest : list byte)
    (Hm : modules (state c) = 2) (Ho : outputs (state c) = 2)
    (Hin : incoming (resource c) = [byte_1; byte_0; CR; byte_0; byte_1; CR] ++ rest) :
  let status := [byte_1; byte_0; CR; byte_0; byte_1; CR] in
  length status = 6
  ∧ split CR status = [[byte_1; byte_0]; [byte_0; byte_1]; []]
  ∧ decode_rows status = [[Some true; Some false]; [Some false; Some true]]
  ∧ decode status = [[Some true; Some false]; [Some false; Some true]]
  ∧ ∃ c', connections c = Ok c'
          ∧ connections_of (state c') = [[Some true; Some false]; [Some false; Some true]]
          ∧ incoming (resource c') = rest.
Proof.
  repeat (split; [reflexivity|]).
  destruct c as [[w i] [m o a e v cs]]. simpl in *. subst m o i.
  unfold connections, read_bytes. simpl.
  destruct (a || e || v); simpl; eexists; (split; [reflexivity|by split]).
Qed.

Lemma status_scenario_witness :
  let c := {| resource := {| written := [];
                             incoming := [byte_1; byte_0; CR; byte_0; byte_1; CR] |};
              state := mkState 2 2 true false false [[]] |} in
  (modules (state c) = 2 ∧ outputs (state c) = 2
   ∧ incoming (resource c) = [byte_1; byte_0; CR; byte_0; byte_1; CR] ++ [])
  ∧ ∃ c', connections c = Ok c'
          ∧ connections_of (state c') = [[Some true; Some false]; [Some false; Some true]]
          ∧ incoming (resource c') = [].
Proof.
  split; [by repeat split|].
  exact (proj2 (proj2 (proj2 (proj2
    (status_scenario
       {| resource := {| written := [];
                         incoming := [byte_1; byte_0; CR; byte_0; byte_1; CR] |};
          state := mkState 2 2 true false false [[]] |}
       [] eq_refl eq_refl eq_refl))))).
Defined.

(** ** Cells of a matrix *)

Section Cells.
Context (m n : nat).

Lemma cell_in_range (c : CytecConnections) (i j : nat) :
  has_dims m n c → populated c → i < m → j < n →
  ∃ b, cell c i j = Some (Some b).
Proof.
  intros [Hlen Hrows] Hpop Hi Hj. unfold cell.
  destruct (lookup_lt_is_Some_2 c i) as [row Hrow]; [lia|].
  rewrite Hrow. simpl.
  pose proof (Forall_lookup_1 _ _ _ _ Hrows Hrow) as Hrl. simpl in Hrl.
  destruct (lookup_lt_is_Some_2 row j) as [x Hx]; [lia|].
  rewrite Hx.
  pose proof (Forall_lookup_1 _ _ _ _ Hpop Hrow) as Hrp.
  pose proof (Forall_lookup_1 _ _ _ _ Hrp Hx) as Hxp. simpl in Hxp.
  destruct x as [b|]; [by exists b|done].
Qed.




End Cells.

(** ** The diff *)

Lemma concat_map_bind {A B} (f : A → list B) (l : list A) :
  concat (map f l) = l ≫= f.
Proof. induction l as [|a l IH]; [done|]. simpl. by rewrite IH. Qed.

Section DiffFacts.
Context (m n : nat) (current target : CytecConnections).
Hypothesis Hcur : has_dims m n current.
Hypothesis Htgt : has_dims m n target.
Hypothesis Hcurp : populated current.
Hypothesis Htgtp : populated target.

(** The inner comprehension, from column [j0] on, on row [i]. *)
Lemma row_commands_spec (i : nat) (xs ys : list (option bool)) :
  i < m → current !! i = Some xs → target !! i = Some ys →
  ∀ k j0, j0 + k = n →
    row_commands i j0 (zip (drop j0 xs) (drop j0 ys))
    = Ok (seq j0 k ≫= diff_cell current target i).
Proof.
  intros Hi Hxs Hys.
  assert (Hlx : length xs = n)
    by exact (Forall_lookup_1 _ _ _ _ (proj2 Hcur) Hxs).
  assert (Hly : length ys = n)
    by exact (Forall_lookup_1 _ _ _ _ (proj2 Htgt) Hys).
  induction k as [|k IH]; intros j0 Hj0.
  - rewrite drop_ge by lia. reflexivity.
  - destruct (cell_in_range m n current i j0 Hcur Hcurp Hi) as [a Ha]; [lia|].
    destruct (cell_in_range m n target i j0 Htgt Htgtp Hi) as [b Hb]; [lia|].
    assert (Hxa : xs !! j0 = Some (Some a)).
    { unfold cell in Ha. by rewrite Hxs in Ha. }
    assert (Hyb : ys !! j0 = Some (Some b)).
    { unfold cell in Hb. by rewrite Hys in Hb. }
    rewrite (drop_S _ _ _ Hxa), (drop_S _ _ _ Hyb).
    change (seq j0 (S k)) with (j0 :: seq (S j0) k).
    rewrite bind_cons. simpl.
    rewrite IH by lia. simpl.
    assert (Hdc : diff_cell current target i j0
                  = if xorb a b then [(if b then "L" else "U", i, j0)] else []).
    { unfold diff_cell. rewrite Ha, Hb.
      destruct a, b; simpl; repeat case_decide; simplify_eq; reflexivity. }
    rewrite Hdc. destruct a, b; reflexivity.
Qed.

(** The outer comprehension, from row [i0] on. *)
Lemma matrix_commands_spec :
  ∀ k i0, i0 + k = m →
    matrix_commands i0 (zip (drop i0 current) (drop i0 target))
    = Ok (map (diff_row n current target) (seq i0 k)).
Proof.
  induction k as [|k IH]; intros i0 Hi0.
  - rewrite drop_ge by (destruct Hcur; lia). reflexivity.
  - destruct (lookup_lt_is_Some_2 current i0) as [xs Hxs]; [destruct Hcur; lia|].
    destruct (lookup_lt_is_Some_2 target i0) as [ys Hys]; [destruct Htgt; lia|].
    rewrite (drop_S _ _ _ Hxs), (drop_S _ _ _ Hys). simpl.
    pose proof (row_commands_spec i0 xs ys ltac:(lia) Hxs Hys n 0 eq_refl) as Hrow.
    rewrite !drop_0 in Hrow. rewrite Hrow. simpl.
    rewrite IH by lia. reflexivity.
Qed.

Lemma commands_spec :
  commands current target = Ok (map (diff_row n current target) (seq 0 m)).
Proof.
  pose proof (matrix_commands_spec m 0 eq_refl) as H.
  by rewrite !drop_0 in H.
Qed.

(** What the operations of the specification's diff are. *)
Lemma elem_of_diff_spec (op : string) (i j : nat) :
  (op, i, j) ∈ diff_spec m n current target ↔
  i < m ∧ j < n ∧ cell current i j ≠ cell target i j
  ∧ op = if decide (cell target i j = Some (Some true)) then "L" else "U".
Proof.
  unfold diff_spec, diff_row. rewrite list_elem_of_bind. split.
  - intros (i' & Hin & Hi'). apply list_elem_of_bind in Hin as (j' & Hin & Hj').
    apply elem_of_seq in Hi', Hj'. unfold diff_cell in Hin.
    case_decide as Hd; [|by apply elem_of_nil in Hin].
    apply list_elem_of_singleton in Hin. simplify_eq.
    split; [lia|split; [lia|split; [exact Hd|reflexivity]]].
  - intros (Hi & Hj & Hd & ->). exists i. split; [|apply elem_of_seq; lia].
    apply list_elem_of_bind. exists j. split; [|apply elem_of_seq; lia].
    unfold diff_cell.
    destruct (decide (cell current i j ≠ cell target i j)) as [_|Hn]; [|done].
    by apply list_elem_of_singleton.
Qed.
End DiffFacts.

Lemma diff_spec_NoDup (m n : nat) (current target : CytecConnections) :
  NoDup (diff_spec m n current target).
Proof.
  unfold diff_spec. apply NoDup_bind; [| |apply NoDup_seq].
  - intros i1 i2 [[op i] j] _ _ H1 H2. unfold diff_row in H1, H2.
    apply list_elem_of_bind in H1 as (j1 & H1 & _).
    apply list_elem_of_bind in H2 as (j2 & H2 & _).
    unfold diff_cell in H1, H2.
    destruct (decide (cell current i1 j1 ≠ cell target i1 j1));
      [|by apply elem_of_nil in H1].
    destruct (decide (cell current i2 j2 ≠ cell target i2 j2));
      [|by apply elem_of_nil in H2].
    apply list_elem_of_singleton in H1, H2. congruence.
  - intros i _. unfold diff_row. apply NoDup_bind; [| |apply NoDup_seq].
    + intros j1 j2 [[op i'] j] _ _ H1 H2. unfold diff_cell in H1, H2.
      destruct (decide (cell current i j1 ≠ cell target i j1));
        [|by apply elem_of_nil in H1].
      destruct (decide (cell current i j2 ≠ cell target i j2));
        [|by apply elem_of_nil in H2].
      apply list_elem_of_singleton in H1, H2. congruence.
    + intros j _. unfold diff_cell.
      destruct (decide (cell current i j ≠ cell target i j));
        [apply NoDup_singleton|apply NoDup_nil_2].
Qed.

(** C7. For two fully populated matrices of the same dimensions, the
    diff of [set_connections] returns, per module, the operations of
    the specification: one for every cell in which the matrices differ
    and none for the others, a latch (["L"]) when the target cell is
    connected and an unlatch (["U"]) otherwise, in row-major order. *)
Theorem diff_operations (m n : nat) (current target : CytecConnections)
    (Hcur : has_dims m n current) (Htgt : has_dims m n target)
    (Hcurp : populated current) (Htgtp : populated target) :
  ∃ cmds,
    commands current target = Ok cmds
    ∧ cmds = map (diff_row n current target) (seq 0 m)
    ∧ concat cmds = diff_spec m n current target
    ∧ NoDup (concat cmds)
    ∧ ∀ op i j,
        (op, i, j) ∈ concat cmds ↔
        i < m ∧ j < n ∧ cell current i j ≠ cell target i j
        ∧ op = if decide (cell target i j = Some (Some true)) then "L" else "U".
Proof.
  exists (map (diff_row n current target) (seq 0 m)).
  split; [by apply commands_spec|]. split; [reflexivity|].
  assert (Hcat : concat (map (diff_row n current target) (seq 0 m))
                 = diff_spec m n current target) by apply concat_map_bind.
  rewrite Hcat. split; [reflexivity|]. split; [apply diff_spec_NoDup|].
  intros op i j. by apply elem_of_diff_spec.
Qed.

Lemma diff_operations_witness :
  let current := [[Some false; Some false]; [Some false; Some false]] in
  let target := [[Some true; Some false]; [Some false; Some true]] in
  (has_dims 2 2 current ∧ has_dims 2 2 target ∧ populated current ∧ populated target)
  ∧ commands current target = Ok [[("L", 0, 0)]; [("L", 1, 1)]].
Proof.
  intros current target.
  assert (Hc : has_dims 2 2 current) by (split; [reflexivity|by repeat constructor]).
  assert (Ht : has_dims 2 2 target) by (split; [reflexivity|by repeat constructor]).
  assert (Hcp : populated current) by (by repeat constructor).
  assert (Htp : populated target) by (by repeat constructor).
  split; [done|].
  destruct (diff_operations 2 2 current target Hc Ht Hcp Htp) as (cmds & Hrun & -> & _).
  exact Hrun.
Defined.

(** ** Diff, then apply *)

Section ApplyFacts.
Context (m n : nat) (target : CytecConnections).

End ApplyFacts.



(** ** Switching *)

Lemma row_commands_same (xs : list (option bool)) :
  Forall (fun x : option bool => x ≠ None) xs →
  ∀ i j, row_commands i j (zip xs xs) = Ok [].
Proof.
  induction 1 as [|x xs Hx _ IH]; intros i j; [reflexivity|].
  destruct x as [b|]; [|done]. simpl. rewrite IH. simpl. by destruct b.
Qed.

Lemma matrix_commands_same (rows : CytecConnections) :
  populated rows →
  ∀ i, matrix_commands i (zip rows rows) = Ok (map (fun _ => []) rows).
Proof.
  induction 1 as [|xs rows Hxs _ IH]; intros i; [reflexivity|].
  simpl. rewrite row_commands_same by done. simpl. by rewrite IH.
Qed.

Lemma grouped_commands_none {A} (rows : list A) :
  grouped_commands (map (fun _ => []) rows) = [].
Proof. induction rows as [|r rows IH]; [reflexivity|exact IH]. Qed.

(** A refreshed session is silent. *)
Lemma connections_silent (c0 c : Cytec) :
  connections c0 = Ok c →
  answerback (state c) = false ∧ echo (state c) = false ∧ verbose (state c) = false.
Proof.
  unfold connections.
  destruct (read_bytes _ _) as [[status r2]|e]; simpl; [|done].
  by intros [= <-].
Qed.

(** C10. When no cell differs between the current and the target matrix
    the token list is empty, the packer returns exactly one frame with
    no token, the frame joins to the empty string, and the switch
    still writes that one empty frame to the transport, with or without
    verification, and also on the default path that refreshes the state
    first. *)
Theorem empty_diff_writes_empty_frame (c : Cytec) (target : CytecConnections)
    (Hpop : populated target)
    (Hsame : connections_of (state c) = target) :
  (∃ cmds, commands (connections_of (state c)) target = Ok cmds
           ∧ grouped_commands cmds = [])
  ∧ pack [] = Ok [[]]
  ∧ packed_commands [[]] = [""]
  ∧ set_connections c target false false
    = Ok {| resource := write (resource (silenced c false)) "";
            state := with_connections (state c) target |}
  ∧ set_connections c target false true
    = connections {| resource := write (resource (silenced c false)) "";
                     state := silent (state c) |}
  ∧ ∀ c0, connections c0 = Ok c →
      set_connections c0 target true false
      = Ok {| resource := write (resource c) "";
              state := with_connections (state c) target |}
      ∧ set_connections c0 target true true
        = connections {| resource := write (resource c) "";
                         state := silent (state c) |}.
Proof.
  assert (Hcmds : commands (connections_of (state c)) target
                  = Ok (map (fun _ => []) target)).
  { rewrite Hsame. unfold commands. by apply matrix_commands_same. }
  assert (Hbody : ∀ v, set_connections_body c target v
    = if v then connections {| resource := write (resource (silenced c false)) "";
                               state := silent (state c) |}
      else Ok {| resource := write (resource (silenced c false)) "";
                 state := with_connections (state c) target |}).
  { intros v. unfold set_connections_body. rewrite Hcmds. simpl.
    rewrite grouped_commands_none. simpl.
    destruct v; [|reflexivity].
    generalize (connections
      {| resource := write (if answerback (state c) || echo (state c)
                               || verbose (state c)
                            then write (resource c) "A0 73;E0 73;V0 73"
                            else resource c) "";
         state := silent (state c) |}).
    by intros [cpost|e]. }
  split; [exists (map (fun _ => []) target); split;
          [exact Hcmds|apply grouped_commands_none]|].
  split; [reflexivity|]. split; [reflexivity|].
  split; [apply (Hbody false)|]. split; [apply (Hbody true)|].
  intros c0 Hrefresh.
  destruct (connections_silent c0 c Hrefresh) as (Ha & He & Hv).
  assert (Hpre : resource (silenced c false) = resource c).
  { unfold silenced. by rewrite Ha, He, Hv. }
  unfold set_connections. rewrite Hrefresh. simpl.
  rewrite !Hbody, Hpre. by split.
Qed.

Lemma empty_diff_writes_empty_frame_witness :
  let c0 := {| resource := {| written := []; incoming := [byte_1; CR] |};
               state := mkState 1 1 true false false [[]] |} in
  let c := {| resource := {| written := ["A0 73;E0 73;V0 73"; "S"]; incoming := [] |};
              state := mkState 1 1 false false false [[Some true]] |} in
  (populated [[Some true]] ∧ connections_of (state c) = [[Some true]]
   ∧ connections c0 = Ok c)
  ∧ set_connections c0 [[Some true]] true false
    = Ok {| resource := {| written := ["A0 73;E0 73;V0 73"; "S"; ""]; incoming := [] |};
            state := mkState 1 1 false false false [[Some true]] |}.
Proof.
  intros c0 c.
  assert (Hp : populated [[Some true]]) by (by repeat constructor).
  split; [by repeat split|].
  exact (proj1 (proj2 (proj2 (proj2 (proj2 (proj2
    (empty_diff_writes_empty_frame c [[Some true]] Hp eq_refl))))) c0 eq_refl)).
Defined.

(** C1 (the code departs from the claim). A 1 x 1 matrix whose relay
    stays open: both status reads answer ["0"].  The switch to
    [[[true]]] with verification writes its frame, reads the status
    again, and returns the observed matrix [[[false]]], which differs
    from the target; nothing is raised. *)
Theorem verify_returns_mismatch :
  let c := {| resource := {| written := []; incoming := [byte_0; CR; byte_0; CR] |};
              state := mkState 1 1 true false false [[]] |} in
  let target := [[Some true]] in
  set_connections c target true true
  = Ok {| resource := {| written := ["A0 73;E0 73;V0 73"; "S"; "L0 0"; "S"];
                         incoming := [] |};
          state := mkState 1 1 false false false [[Some false]] |}
  ∧ [[Some false]] ≠ target.
Proof. split; [reflexivity|discriminate]. Qed.

(** C2 (the code departs from the claim). With 2 modules of 16 outputs,
    all open, and a target that closes output 0 of module 0 and every
    output of module 1, the run of module 1 is cut: the second frame
    holds the continuation token ["L15"] alone, after no token that
    introduces a module; the session writes it as a frame of its own. *)
Theorem run_split_across_frames :
  let current := [falses 16; falses 16] in
  let target := [Some true :: falses 15; trues 16] in
  let c := {| resource := {| written := []; incoming := [] |};
              state := mkState 2 16 false false false current |} in
  frames_of current target
  = Ok [["L0 0"; "L1 0"; "L1"; "L2"; "L3"; "L4"; "L5"; "L6"; "L7"; "L8"; "L9";
         "L10"; "L11"; "L12"; "L13"; "L14"];
        ["L15"]]
  ∧ introduces_module "L15" = false
  ∧ keeps_runs ["L15"] = false
  ∧ set_connections c target false false
    = Ok {| resource :=
              {| written := ["L0 0;L1 0;L1;L2;L3;L4;L5;L6;L7;L8;L9;L10;L11;L12;L13;L14";
                             "L15"];
                 incoming := [] |};
            state := mkState 2 16 false false false target |}.
Proof. repeat split; vm_compute; reflexivity. Qed.

(** The scenario of the specification: two latches, one frame. *)
Example two_latches_one_frame :
  let current := [[Some false; Some false]; [Some false; Some false]] in
  let target := [[Some true; Some false]; [Some false; Some true]] in
  frames_of current target = Ok [["L0 0"; "L1 1"]]
  ∧ (packs ← pack ["L0 0"; "L1 1"]; Ok (packed_commands packs)) = Ok ["L0 0;L1 1"]
  ∧ String.length "L0 0;L1 1" = 9.
Proof. repeat split; reflexivity. Qed.

(** * Further properties of the code *)

(** ** The shape of the packer's frames *)

Section PackerShape.
Context {A : Type} (maximum_sum : nat) (on : A → nat).

Lemma greedy_new_frame (fs : list (list A)) (cur : list A) (x : A) :
  greedy maximum_sum on (fs ++ [cur]) →
  maximum_sum < frame_sum on cur + on x →
  greedy maximum_sum on ((fs ++ [cur]) ++ [[x]]).
Proof.
  induction fs as [|f fs IH]; intros Hg Hx.
  - simpl. auto.
  - destruct Hg as [Hhead Hrest]. split; [|by apply IH].
    destruct fs as [|g fs]; simpl in *; exact Hhead.
Qed.

Lemma greedy_grow_frame (fs : list (list A)) (cur : list A) (x : A) :
  greedy maximum_sum on (fs ++ [cur]) →
  greedy maximum_sum on (fs ++ [cur ++ [x]]).
Proof.
  induction fs as [|f fs IH]; intros Hg.
  - simpl. auto.
  - destruct Hg as [Hhead Hrest]. split; [|by apply IH].
    destruct fs as [|g fs]; simpl in *; [|exact Hhead].
    destruct cur as [|y cur]; [contradiction|exact Hhead].
Qed.

(** The loop again: how many frames it adds, and that it keeps them
    greedy. *)
Lemma splitsum_loop_shape (xs : list A) :
  ∀ (fs : list (list A)) (cur : list A),
  ∃ fs' cur',
    splitsum_loop maximum_sum on xs (fs ++ [cur], frame_sum on cur)
    = Ok (fs' ++ [cur'], frame_sum on cur')
    ∧ length (fs' ++ [cur'])
      = length (fs ++ [cur]) + opens maximum_sum on (frame_sum on cur) xs
    ∧ (greedy maximum_sum on (fs ++ [cur]) → greedy maximum_sum on (fs' ++ [cur'])).
Proof.
  induction xs as [|x xs IH]; intros fs cur.
  - exists fs, cur. simpl. split; [reflexivity|]. split; [lia|auto].
  - simpl. destruct (maximum_sum <? frame_sum on cur + on x) eqn:Hcmp.
    + destruct (IH (fs ++ [cur]) [x]) as (fs' & cur' & Hrun & Hlen & Hg).
      assert (Hx : frame_sum on [x] = on x) by (unfold frame_sum; simpl; lia).
      rewrite Hx in Hrun, Hlen.
      exists fs', cur'. simpl. split; [exact Hrun|]. split.
      * rewrite Hlen, !length_app. simpl. lia.
      * intros Hfs. apply Hg, greedy_new_frame; [exact Hfs|].
        by apply Nat.ltb_lt.
    + rewrite append_to_last_snoc. simpl.
      destruct (IH fs (cur ++ [x])) as (fs' & cur' & Hrun & Hlen & Hg).
      rewrite frame_sum_snoc in Hrun, Hlen.
      exists fs', cur'. split; [exact Hrun|]. split.
      * rewrite Hlen, !length_app. simpl. lia.
      * intros Hfs. by apply Hg, greedy_grow_frame.
Qed.

Lemma splitsum_shape (xs : list A) :
  ∃ frames,
    splitsum xs maximum_sum on = Ok frames
    ∧ length frames = S (opens maximum_sum on 0 xs)
    ∧ greedy maximum_sum on frames.
Proof.
  destruct (splitsum_loop_shape xs [] []) as (fs' & cur' & Hrun & Hlen & Hg).
  exists (fs' ++ [cur']). unfold splitsum.
  change (frame_sum on []) with 0 in Hrun, Hlen. simpl in Hrun. rewrite Hrun.
  split; [reflexivity|]. split; [by rewrite Hlen|]. apply Hg. simpl. auto.
Qed.

Lemma greedy_lookup (frames : list (list A)) :
  greedy maximum_sum on frames →
  ∀ k f g, frames !! k = Some f → frames !! S k = Some g →
  ∃ x g', g = x :: g' ∧ maximum_sum < frame_sum on f + on x.
Proof.
  induction frames as [|f0 frames IH]; intros Hg k f g Hf Hgk; [done|].
  destruct Hg as [Hhead Hrest]. destruct k as [|k].
  - simpl in Hf, Hgk. simplify_eq.
    destruct frames as [|[|x g'] frames]; simpl in *; simplify_eq; [done|].
    by exists x, g'.
  - by apply (IH Hrest k).
Qed.

Lemma opens_le_length (t : nat) (xs : list A) :
  opens maximum_sum on t xs ≤ length xs.
Proof.
  revert t. induction xs as [|x xs IH]; intros t; simpl; [lia|].
  destruct (maximum_sum <? t + on x); [specialize (IH (on x))|specialize (IH (t + on x))]; lia.
Qed.

(** A fuller frame never saves a frame, and costs at most one. *)
Lemma opens_load (xs : list A) :
  (∀ t t', opens maximum_sum on t xs ≤ S (opens maximum_sum on t' xs))
  ∧ (∀ t t', t ≤ t' → opens maximum_sum on t xs ≤ opens maximum_sum on t' xs).
Proof.
  induction xs as [|x xs [IHB IHA]]; [split; intros; simpl; lia|].
  split.
  - intros t t'. simpl.
    destruct (maximum_sum <? t + on x) eqn:E1;
      destruct (maximum_sum <? t' + on x) eqn:E2.
    + lia.
    + pose proof (IHA (on x) (t' + on x) ltac:(lia)). lia.
    + pose proof (IHB (t + on x) (on x)). lia.
    + apply IHB.
  - intros t t' Hle. simpl.
    destruct (maximum_sum <? t + on x) eqn:E1;
      destruct (maximum_sum <? t' + on x) eqn:E2.
    + lia.
    + apply Nat.ltb_lt in E1. apply Nat.ltb_ge in E2. lia.
    + apply IHB.
    + apply IHA. lia.
Qed.

Lemma opens_fitting_prefix (p ys : list A) (t : nat) :
  t + frame_sum on p ≤ maximum_sum →
  opens maximum_sum on t (p ++ ys)
  = opens maximum_sum on (t + frame_sum on p) ys.
Proof.
  revert t. induction p as [|x p IH]; intros t Hfit.
  - simpl. f_equal. unfold frame_sum. simpl. lia.
  - assert (Hsum : frame_sum on (x :: p) = on x + frame_sum on p) by reflexivity.
    rewrite Hsum in *. simpl.
    destruct (maximum_sum <? t + on x) eqn:E;
      [apply Nat.ltb_lt in E; lia|].
    rewrite IH by lia. f_equal. lia.
Qed.

Lemma opens_partition (P : list (list A)) :
  P ≠ [] →
  Forall (fun f => frame_sum on f ≤ maximum_sum) P →
  S (opens maximum_sum on 0 (concat P)) ≤ length P.
Proof.
  induction P as [|p P IH]; intros Hne Hfit; [done|].
  inversion Hfit as [|? ? Hp HP]; subst. simpl.
  rewrite opens_fitting_prefix by (simpl; lia). simpl.
  destruct P as [|q P]; [simpl; lia|].
  pose proof (proj1 (opens_load (concat (q :: P))) (frame_sum on p) 0) as HB.
  specialize (IH ltac:(done) HP). simpl in *. lia.
Qed.
End PackerShape.

(** X1. [splitsum] returns at least one frame and at most one more than
    there are items; every frame after the first is non-empty, and its
    first item is one that did not fit into the frame before it: the
    cost of that frame plus the cost of the item exceeds the maximum. *)
Theorem splitsum_frames_greedy :
  ∀ (A : Type) (xs : list A) (maximum_sum : nat) (on : A → nat),
  ∃ frames,
    splitsum xs maximum_sum on = Ok frames
    ∧ 1 ≤ length frames ≤ S (length xs)
    ∧ ∀ k f g, frames !! k = Some f → frames !! S k = Some g →
        ∃ x g', g = x :: g' ∧ maximum_sum < frame_sum on f + on x.
Proof.
  intros A xs maximum_sum on.
  destruct (splitsum_shape maximum_sum on xs) as (frames & Hrun & Hlen & Hg).
  exists frames. split; [exact Hrun|]. split.
  - pose proof (opens_le_length maximum_sum on 0 xs). lia.
  - by apply greedy_lookup.
Qed.

(** X2. [splitsum] uses the fewest frames: for a non-empty list of
    items, no way of cutting the list, in order, into frames that all
    stay within the maximum has fewer frames than [splitsum] returns. *)
Theorem splitsum_fewest_frames
    (A : Type) (xs : list A) (maximum_sum : nat) (on : A → nat)
    (P : list (list A))
    (Hxs : xs ≠ [])
    (Hcut : concat P = xs)
    (Hfit : Forall (fun f => frame_sum on f ≤ maximum_sum) P) :
  ∃ frames,
    splitsum xs maximum_sum on = Ok frames ∧ length frames ≤ length P.
Proof.
  destruct (splitsum_shape maximum_sum on xs) as (frames & Hrun & Hlen & _).
  exists frames. split; [exact Hrun|].
  rewrite Hlen, <- Hcut. apply opens_partition; [|exact Hfit].
  intros ->. by apply Hxs.
Qed.

Lemma splitsum_fewest_frames_witness :
  ([3; 4; 5; 2] ≠ [] ∧ concat [[3; 4]; [5]; [2]] = [3; 4; 5; 2]
   ∧ Forall (fun f => frame_sum id f ≤ 8) [[3; 4]; [5]; [2]])
  ∧ ∃ frames, splitsum [3; 4; 5; 2] 8 id = Ok frames ∧ length frames ≤ 3.
Proof.
  assert (H1 : [3; 4; 5; 2] ≠ ([] : list nat)) by discriminate.
  assert (H3 : Forall (fun f => frame_sum id f ≤ 8) [[3; 4]; [5]; [2]])
    by (repeat constructor; vm_compute; lia).
  split; [by repeat split|].
  exact (splitsum_fewest_frames nat [3; 4; 5; 2] 8 id [[3; 4]; [5]; [2]]
           H1 eq_refl H3).
Defined.

(** ** Transposition *)

Section TransposeFacts.
Context {A : Type}.

Lemma lookup_map {B} (f : A → B) (l : list A) (j : nat) :
  map f l !! j = f <$> l !! j.
Proof. revert j. induction l as [|a l IH]; intros [|j]; simpl; auto. Qed.

Lemma transpose_cons (row row' : list A) (rest : list (list A)) :
  transpose (row :: row' :: rest) = zip_with cons row (transpose (row' :: rest)).
Proof. reflexivity. Qed.

Lemma shortest_row_cons (row row' : list A) (rest : list (list A)) :
  shortest_row (row :: row' :: rest)
  = Nat.min (length row) (shortest_row (row' :: rest)).
Proof. reflexivity. Qed.

Lemma transpose_length (x : list (list A)) :
  length (transpose x) = shortest_row x.
Proof.
  induction x as [|row rest IH]; [reflexivity|].
  destruct rest as [|row' rest]; [simpl; by rewrite length_map|].
  rewrite transpose_cons, shortest_row_cons, length_zip_with, IH. reflexivity.
Qed.

Lemma transpose_columns (x : list (list A)) :
  Forall (fun col => length col = length x) (transpose x).
Proof.
  induction x as [|row rest IH]; [constructor|].
  destruct rest as [|row' rest].
  - simpl. induction row; simpl; by constructor.
  - rewrite transpose_cons. apply Forall_lookup. intros j col Hcol.
    apply lookup_zip_with_Some in Hcol as (a & col' & -> & _ & Hcol').
    pose proof (Forall_lookup_1 _ _ _ _ IH Hcol') as Hlen. simpl in *. lia.
Qed.

Lemma transpose_at (x : list (list A)) (i j : nat) :
  at_ (transpose x) j i
  = if decide (j < shortest_row x) then at_ x i j else None.
Proof.
  revert i. induction x as [|row rest IH]; intros i.
  - unfold at_. destruct (decide (j < shortest_row (@nil (list A)))); reflexivity.
  - destruct rest as [|row' rest].
    + unfold at_. simpl. rewrite lookup_map.
      destruct (row !! j) as [a|] eqn:Ha; simpl.
      * apply lookup_lt_Some in Ha as Hj. rewrite decide_True by done.
        destruct i as [|i]; simpl; [by rewrite Ha|reflexivity].
      * apply lookup_ge_None in Ha. rewrite decide_False by lia. reflexivity.
    + rewrite transpose_cons, shortest_row_cons. unfold at_ at 1.
      rewrite lookup_zip_with.
      remember (row' :: rest) as R eqn:HR. clear HR.
      destruct (row !! j) as [a|] eqn:Ha; simpl.
      2:{ apply lookup_ge_None in Ha. rewrite decide_False by lia. reflexivity. }
      apply lookup_lt_Some in Ha as Hj.
      destruct (transpose R !! j) as [col|] eqn:Hcol; simpl.
      2:{ apply lookup_ge_None in Hcol. rewrite transpose_length in Hcol.
          rewrite decide_False by lia. reflexivity. }
      apply lookup_lt_Some in Hcol as Hj'. rewrite transpose_length in Hj'.
      rewrite decide_True by lia.
      destruct i as [|i]; [unfold at_; simpl; by rewrite Ha|].
      specialize (IH i). unfold at_ in IH at 1. rewrite Hcol in IH. simpl in IH.
      rewrite decide_True in IH by done. exact IH.
Qed.

Lemma shortest_row_rect (m : nat) (x : list (list A)) :
  x ≠ [] → Forall (fun row => length row = m) x → shortest_row x = m.
Proof.
  intros Hne Hrows. induction Hrows as [|row rest Hrow Hrest IH]; [done|].
  destruct rest as [|row' rest]; [exact Hrow|].
  rewrite shortest_row_cons, IH by done. lia.
Qed.

(** Two lists of rows with the same number of rows, the same row
    lengths and the same cells are equal. *)
Lemma rows_ext (n m : nat) (x y : list (list A)) :
  length x = n → Forall (fun row => length row = m) x →
  length y = n → Forall (fun row => length row = m) y →
  (∀ i j, i < n → j < m → at_ x i j = at_ y i j) → x = y.
Proof.
  intros Hx Hxr Hy Hyr Hcells. apply list_eq. intros i.
  destruct (decide (i < n)) as [Hi|Hi].
  - destruct (lookup_lt_is_Some_2 x i) as [r1 H1]; [lia|].
    destruct (lookup_lt_is_Some_2 y i) as [r2 H2]; [lia|].
    rewrite H1, H2. f_equal. apply list_eq. intros j.
    pose proof (Forall_lookup_1 _ _ _ _ Hxr H1) as L1.
    pose proof (Forall_lookup_1 _ _ _ _ Hyr H2) as L2. simpl in L1, L2.
    destruct (decide (j < m)) as [Hj|Hj].
    + specialize (Hcells i j Hi Hj). unfold at_ in Hcells.
      by rewrite H1, H2 in Hcells.
    + rewrite !lookup_ge_None_2; [done|lia|lia].
  - rewrite !lookup_ge_None_2; [done|lia|lia].
Qed.
End TransposeFacts.

Lemma transpose_map {A B} (f : A → B) (x : list (list A)) :
  transpose (map (map f) x) = map (map f) (transpose x).
Proof.
  induction x as [|row rest IH]; [reflexivity|].
  destruct rest as [|row' rest].
  - simpl. induction row as [|a row IHr]; simpl; [reflexivity|by rewrite IHr].
  - change (map (map f) (row :: row' :: rest))
      with (map f row :: map f row' :: map (map f) rest).
    rewrite !transpose_cons.
    change (map f row' :: map (map f) rest) with (map (map f) (row' :: rest)).
    rewrite IH. generalize (transpose (row' :: rest)). clear.
    induction row as [|a row IHr]; intros [|col t]; simpl; try reflexivity.
    by rewrite IHr.
Qed.

(** X3. [transpose] returns as many rows as the shortest input row is
    long, so the cells of longer rows beyond that length are dropped;
    each returned row is as long as the input has rows; and the cell
    [(j, i)] of the result is the cell [(i, j)] of the input. *)
Theorem transpose_shape :
  ∀ (A : Type) (x : list (list A)),
    length (transpose x) = shortest_row x
    ∧ Forall (fun col => length col = length x) (transpose x)
    ∧ ∀ i j, at_ (transpose x) j i
             = if decide (j < shortest_row x) then at_ x i j else None.
Proof.
  intros A x. split; [apply transpose_length|].
  split; [apply transpose_columns|]. intros i j. apply transpose_at.
Qed.

Lemma transpose_transpose {A} (n m : nat) (x : list (list A)) :
  length x = n → Forall (fun row => length row = m) x → 0 < n → 0 < m →
  transpose (transpose x) = x.
Proof.
  intros Hrows Hcols Hn Hm.
  assert (Hx : x ≠ []) by (intros ->; simpl in Hrows; lia).
  assert (Hsx : shortest_row x = m) by by apply shortest_row_rect.
  assert (HT : transpose x ≠ []).
  { intros HT. pose proof (transpose_length x) as HL.
    rewrite HT, Hsx in HL. simpl in HL. lia. }
  assert (HTc : Forall (fun col => length col = n) (transpose x)).
  { rewrite <- Hrows. apply transpose_columns. }
  assert (HsT : shortest_row (transpose x) = n) by by apply shortest_row_rect.
  apply (rows_ext n m); try done.
  - by rewrite transpose_length.
  - pose proof (transpose_columns (transpose x)) as H.
    by rewrite transpose_length, Hsx in H.
  - intros i j Hi Hj. rewrite transpose_at, HsT, decide_True by done.
    rewrite transpose_at, Hsx, decide_True by done. reflexivity.
Qed.

(** X4. On a rectangular list of rows with at least one row and at
    least one column, transposing twice gives the input back. *)
Theorem transpose_involutive
    (A : Type) (n m : nat) (x : list (list A))
    (Hrows : length x = n) (Hcols : Forall (fun row => length row = m) x)
    (Hn : 0 < n) (Hm : 0 < m) :
  transpose (transpose x) = x.
Proof. by apply (transpose_transpose n m). Qed.

Lemma transpose_involutive_witness :
  (length [[1; 2; 3]; [4; 5; 6]] = 2
   ∧ Forall (fun row => length row = 3) [[1; 2; 3]; [4; 5; 6]] ∧ 0 < 2 ∧ 0 < 3)
  ∧ transpose (transpose [[1; 2; 3]; [4; 5; 6]]) = [[1; 2; 3]; [4; 5; 6]].
Proof.
  assert (H : Forall (fun row => length row = 3) [[1; 2; 3]; [4; 5; 6]])
    by (by repeat constructor).
  split; [repeat split; [exact H|lia|lia]|].
  exact (transpose_involutive nat 2 3 [[1; 2; 3]; [4; 5; 6]] eq_refl H
           ltac:(lia) ltac:(lia)).
Defined.

(** ** The decoder on the wire form of a status *)

Lemma at_map {A B} (f : A → B) (x : list (list A)) (i j : nat) :
  at_ (map (map f) x) i j = f <$> at_ x i j.
Proof.
  unfold at_. rewrite lookup_map.
  destruct (x !! i) as [row|]; simpl; [apply lookup_map|reflexivity].
Qed.

Lemma bit_byte_not_CR (b : bool) : Byte.eqb (bit_byte b) CR = false.
Proof. by destruct b. Qed.

Lemma split_line (line : list bool) (rest : list byte) :
  split CR (map bit_byte line ++ CR :: rest) = map bit_byte line :: split CR rest.
Proof.
  induction line as [|b line IH]; [reflexivity|].
  simpl. rewrite bit_byte_not_CR, IH. reflexivity.
Qed.

Lemma split_status_of_lines (lines : list (list bool)) :
  split CR (status_of_lines lines) = map (map bit_byte) lines ++ [[]].
Proof.
  induction lines as [|line lines IH]; [reflexivity|].
  unfold status_of_lines in *. simpl. rewrite <- app_assoc. simpl.
  by rewrite split_line, IH.
Qed.

Lemma decode_rows_status_of_lines (lines : list (list bool)) :
  decode_rows (status_of_lines lines) = map (map Some) lines.
Proof.
  unfold decode_rows. rewrite split_status_of_lines, removelast_last.
  rewrite map_map. apply map_ext. intros line. rewrite map_map.
  apply map_ext. by intros [|].
Qed.

Lemma status_of_lines_length (m : nat) (lines : list (list bool)) :
  Forall (fun line => length line = m) lines →
  length (status_of_lines lines) = (m + 1) * length lines.
Proof.
  induction 1 as [|line lines Hl _ IH]; [simpl; lia|].
  unfold status_of_lines in *. simpl.
  rewrite !length_app, length_map, IH, Hl. simpl. lia.
Qed.

Lemma Forall_length_map {A B} (f : A → B) (m : nat) (x : list (list A)) :
  Forall (fun row => length row = m) x →
  Forall (fun row => length row = m) (map (map f) x).
Proof. induction 1; simpl; constructor; [by rewrite length_map|assumption]. Qed.

(** X5. A status response in wire form, [n >= 1] output lines of [m]
    relay bits (['0'] or ['1']) each followed by the terminator, has
    [(m + 1) * n] bytes and decodes to a matrix of [m] modules by [n]
    outputs without unknown cells, whose cell [(i, j)] is bit [i] of
    line [j]. *)
Theorem decode_wire_form
    (m n : nat) (lines : list (list bool))
    (Hn : length lines = n) (Hm : Forall (fun line => length line = m) lines)
    (Hpos : 0 < n) :
  length (status_of_lines lines) = (m + 1) * n
  ∧ has_dims m n (decode (status_of_lines lines))
  ∧ populated (decode (status_of_lines lines))
  ∧ ∀ i j, i < m → j < n →
      cell (decode (status_of_lines lines)) i j = Some <$> at_ lines j i.
Proof.
  assert (Hdec : decode (status_of_lines lines) = transpose (map (map Some) lines)).
  { unfold decode. by rewrite decode_rows_status_of_lines. }
  set (R := map (map (@Some bool)) lines) in *.
  assert (HRn : length R = n) by (unfold R; by rewrite length_map).
  assert (HRm : Forall (fun row => length row = m) R).
  { unfold R. by apply Forall_length_map. }
  assert (HR : R ≠ []) by (intros HR; rewrite HR in HRn; simpl in HRn; lia).
  assert (Hs : shortest_row R = m) by by apply shortest_row_rect.
  split; [rewrite <- Hn; by apply status_of_lines_length|].
  rewrite Hdec. split; [|split].
  - split; [by rewrite transpose_length|].
    rewrite <- HRn. apply transpose_columns.
  - apply Forall_transpose. unfold R. apply Forall_map_intro.
    apply Forall_forall. intros line _. apply Forall_map_intro.
    apply Forall_forall. by intros b _.
  - intros i j Hi Hj. change (cell (transpose R) i j) with (at_ (transpose R) i j).
    rewrite transpose_at, Hs, decide_True by done. apply at_map.
Qed.

Lemma decode_wire_form_witness :
  let lines := [[true; false; true]; [false; false; true]] in
  (length lines = 2 ∧ Forall (fun line => length line = 3) lines ∧ 0 < 2)
  ∧ has_dims 3 2 (decode (status_of_lines lines))
  ∧ decode (status_of_lines lines)
    = [[Some true; Some false]; [Some false; Some false]; [Some true; Some true]].
Proof.
  intros lines.
  assert (H : Forall (fun line => length line = 3) lines) by (by repeat constructor).
  split; [repeat split; [exact H|lia]|].
  split; [|reflexivity].
  exact (proj1 (proj2 (decode_wire_form 3 2 lines eq_refl H ltac:(lia)))).
Defined.

(** ** The matrix as text *)

Lemma relay_char_truthy (x : option bool) :
  relay_char (Some (truthy x)) = relay_char x.
Proof. by destruct x as [[|]|]. Qed.

(** X6. [connections_string] prints an unknown cell as ['0'], like a
    disconnected one: the text of a matrix is the text of the matrix
    in which every cell is replaced by its truth value. *)
Theorem connections_string_unknown_as_0 :
  ∀ c : CytecConnections,
    connections_string c
    = connections_string (map (map (fun x => Some (truthy x))) c).
Proof.
  intros c. unfold connections_string. rewrite transpose_map, map_map.
  f_equal. apply map_ext. intros xs. f_equal. rewrite map_map.
  apply map_ext. intros x. by rewrite relay_char_truthy.
Qed.

(** X7. Printing the matrix decoded from a status in wire form gives
    the status lines back as text: one line of ['0'] and ['1'] per
    output, in the order received, joined by newlines. *)
Theorem connections_string_of_decoded
    (m n : nat) (lines : list (list bool))
    (Hn : length lines = n) (Hm : Forall (fun line => length line = m) lines)
    (Hnpos : 0 < n) (Hmpos : 0 < m) :
  connections_string (decode (status_of_lines lines))
  = String.concat LF
      (map (fun line => String.concat ""
                          (map (fun b : bool => if b then "1" else "0") line))
           lines).
Proof.
  unfold connections_string, decode.
  rewrite decode_rows_status_of_lines.
  rewrite (transpose_transpose n m).
  - rewrite map_map. f_equal. apply map_ext. intros line. f_equal.
    rewrite map_map. apply map_ext. by intros [|].
  - by rewrite length_map.
  - by apply Forall_length_map.
  - exact Hnpos.
  - exact Hmpos.
Qed.

Lemma connections_string_of_decoded_witness :
  let lines := [[true; false; true]; [false; false; true]] in
  (length lines = 2 ∧ Forall (fun line => length line = 3) lines ∧ 0 < 2 ∧ 0 < 3)
  ∧ connections_string (decode (status_of_lines lines))
    = String.concat LF ["101"; "001"].
Proof.
  intros lines.
  assert (H : Forall (fun line => length line = 3) lines) by (by repeat constructor).
  split; [repeat split; [exact H|lia|lia]|].
  exact (connections_string_of_decoded 3 2 lines eq_refl H ltac:(lia) ltac:(lia)).
Defined.

(** ** Setting one cell *)





(** The last cell by negative subscripts; [-3] is out of range. *)
Example set_connection_int_from_the_end :
  let c := [[Some false; Some false]; [Some false; Some false]] in
  set_connection_int c (-1) (-1) true
  = Ok [[Some false; Some false]; [Some false; Some true]]
  ∧ set_connection_int c (-3) 0 true = Raise IndexError
  ∧ set_connection_int c 0 2 true = Raise IndexError.
Proof. by repeat split. Qed.

(** X9. Setting the same cell twice is setting it once, to the last
    value (so a latch followed by an unlatch of the same relay is the
    unlatch); out of range both raise [IndexError]. *)
Theorem set_connection_overwrite :
  ∀ (c : CytecConnections) (i j : nat) (v w : bool),
    (c' ← set_connection c i j v; set_connection c' i j w)
    = set_connection c i j w
    ∧ (c' ← latch c i j; unlatch c' i j) = unlatch c i j.
Proof.
  assert (H : ∀ (c : CytecConnections) i j v w,
            (c' ← set_connection c i j v; set_connection c' i j w)
            = set_connection c i j w).
  { intros c i j v w. unfold set_connection.
    destruct (c !! i) as [row|] eqn:Hrow; [|reflexivity].
    apply lookup_lt_Some in Hrow as Hi.
    destruct (decide (j < length row)) as [Hj|Hj]; [|reflexivity].
    simpl. rewrite list_lookup_insert_eq by done.
    rewrite length_insert, decide_True by done.
    by rewrite !list_insert_insert_eq. }
  intros c i j v w. split; [apply H|apply (H c i j true false)].
Qed.



(** ** The diff on any two matrices *)

Lemma row_commands_outcome (cells : list (option bool * option bool)) :
  ∀ i j,
    (row_commands i j cells = Raise TypeError ∧ Exists unknown_pair cells)
    ∨ ((∃ cmds, row_commands i j cells = Ok cmds) ∧ ¬ Exists unknown_pair cells).
Proof.
  induction cells as [|[p q] cells IH]; intros i j.
  - right. split; [by eexists|]. by intros H%Exists_nil.
  - simpl. destruct p as [a|], q as [b|]; simpl;
      try (left; split; [reflexivity|]; apply Exists_cons_hd;
           unfold unknown_pair; simpl; auto).
    destruct (IH i (S j)) as [[Hr Hex]|[[cmds Hr] Hno]]; rewrite Hr; simpl.
    + left. split; [reflexivity|]. by apply Exists_cons_tl.
    + right. split; [by eexists|]. intros Hex. apply Exists_cons in Hex as [Hh|Ht].
      * destruct Hh as [Hh|Hh]; discriminate.
      * by apply Hno.
Qed.

Lemma matrix_commands_outcome
    (rows : list (list (option bool) * list (option bool))) :
  ∀ i,
    (matrix_commands i rows = Raise TypeError
     ∧ Exists unknown_pair (concat (map (fun '(xs, ys) => zip xs ys) rows)))
    ∨ ((∃ cmds, matrix_commands i rows = Ok cmds ∧ length cmds = length rows)
       ∧ ¬ Exists unknown_pair (concat (map (fun '(xs, ys) => zip xs ys) rows))).
Proof.
  induction rows as [|[xs ys] rows IH]; intros i.
  - right. split; [by eexists|]. by intros H%Exists_nil.
  - simpl. destruct (row_commands_outcome (zip xs ys) i 0)
      as [[Hr Hex]|[[r Hr] Hno]]; rewrite Hr; simpl.
    + left. split; [reflexivity|]. apply Exists_app. by left.
    + destruct (IH (S i)) as [[Hm Hex]|[(rs & Hm & Hlen) Hno']]; rewrite Hm; simpl.
      * left. split; [reflexivity|]. apply Exists_app. by right.
      * right. split; [eexists; split; [reflexivity|simpl; by rewrite Hlen]|].
        intros Hex. apply Exists_app in Hex as [H|H]; [by apply Hno|by apply Hno'].
Qed.

(** X11. The diff raises [TypeError] exactly when one of the cells it
    compares is unknown ([None] has no [^]), and raises nothing else;
    otherwise it returns one group of operations for every row the two
    matrices both have. *)
Theorem commands_type_error :
  ∀ current target : CytecConnections,
    (commands current target = Raise TypeError
     ↔ Exists unknown_pair (compared current target))
    ∧ (∀ e, commands current target = Raise e → e = TypeError)
    ∧ (∀ cmds, commands current target = Ok cmds →
         length cmds = Nat.min (length current) (length target)).
Proof.
  intros current target. unfold commands, compared.
  destruct (matrix_commands_outcome (zip current target) 0)
    as [[Hm Hex]|[(cmds & Hm & Hlen) Hno]]; rewrite Hm.
  - split; [done|]. split; [by intros e [= <-]|done].
  - split; [split; [done|by intros H%Hno]|]. split; [done|].
    intros cmds' [= <-]. by rewrite Hlen, length_zip_with.
Qed.

Lemma zip_take {A B} (x : list A) (y : list B) :
  zip (take (length y) x) (take (length x) y) = zip x y.
Proof.
  revert y. induction x as [|a x IH]; intros [|b y]; simpl; [done..|].
  by rewrite IH.
Qed.

Lemma zip_crop (a b : CytecConnections) :
  zip (crop a b) (crop b a)
  = map (fun '(x, y) => (take (length y) x, take (length x) y)) (zip a b).
Proof.
  revert b. induction a as [|x a IH]; intros [|y b]; try reflexivity.
  unfold crop in *. simpl. f_equal. apply IH.
Qed.

Lemma matrix_commands_take
    (rows : list (list (option bool) * list (option bool))) (i : nat) :
  matrix_commands i
    (map (fun '(x, y) => (take (length y) x, take (length x) y)) rows)
  = matrix_commands i rows.
Proof.
  revert i. induction rows as [|[xs ys] rows IH]; intros i; [reflexivity|].
  simpl. rewrite zip_take.
  destruct (row_commands i 0 (zip xs ys)); simpl; [|reflexivity].
  by rewrite IH.
Qed.

(** X12. The diff looks only at the cells both matrices have. Rows or
    cells that one matrix has and the other has not are ignored
    without an error: the diff of two matrices is the diff of their
    common parts.  So from the matrix [[[]]] of a new [CytecState] the
    diff to any target holds no operation. *)
Theorem commands_common_part :
  ∀ current target : CytecConnections,
    commands current target
    = commands (crop current target) (crop target current)
    ∧ ∃ cmds, commands (connections_of CytecState_default) target = Ok cmds
              ∧ concat cmds = [].
Proof.
  intros current target. split.
  - unfold commands. by rewrite zip_crop, matrix_commands_take.
  - destruct target as [|ys target]; [by exists []|]. by exists [[]].
Qed.

(** X13. For two fully populated matrices of the same dimensions the
    diff from [A] to [B] and the diff from [B] to [A] act on the same
    cells with opposite tags. *)
Theorem commands_symmetric
    (m n : nat) (A B : CytecConnections)
    (HA : has_dims m n A) (HB : has_dims m n B)
    (HAp : populated A) (HBp : populated B) :
  ∃ ab ba,
    commands A B = Ok ab ∧ commands B A = Ok ba
    ∧ (∀ op i j, (op, i, j) ∈ concat ab → (opposite op, i, j) ∈ concat ba)
    ∧ (∀ op i j, (op, i, j) ∈ concat ba → (opposite op, i, j) ∈ concat ab).
Proof.
  assert (Hflip : ∀ (C D : CytecConnections),
            has_dims m n C → has_dims m n D → populated C → populated D →
            ∀ op i j, (op, i, j) ∈ diff_spec m n C D →
                      (opposite op, i, j) ∈ diff_spec m n D C).
  { intros C D HC HD HCp HDp op i j Hin.
    apply (elem_of_diff_spec m n C D) in Hin as (Hi & Hj & Hne & ->).
    apply (elem_of_diff_spec m n D C).
    destruct (cell_in_range m n C i j HC HCp Hi Hj) as [c Hc].
    destruct (cell_in_range m n D i j HD HDp Hi Hj) as [d Hd].
    rewrite Hc, Hd in *. split; [exact Hi|]. split; [exact Hj|].
    split; [congruence|].
    destruct c, d; repeat case_decide; simplify_eq; reflexivity. }
  exists (map (diff_row n A B) (seq 0 m)), (map (diff_row n B A) (seq 0 m)).
  split; [by apply commands_spec|]. split; [by apply commands_spec|].
  rewrite !concat_map_bind.
  change (seq 0 m ≫= diff_row n A B) with (diff_spec m n A B).
  change (seq 0 m ≫= diff_row n B A) with (diff_spec m n B A).
  split; intros op i j; by apply Hflip.
Qed.

Lemma commands_symmetric_witness :
  let A := [[Some false; Some true]; [Some true; Some false]] in
  let B := [[Some true; Some true]; [Some false; Some false]] in
  (has_dims 2 2 A ∧ has_dims 2 2 B ∧ populated A ∧ populated B)
  ∧ ∃ ab ba,
      commands A B = Ok ab ∧ commands B A = Ok ba
      ∧ (∀ op i j, (op, i, j) ∈ concat ab → (opposite op, i, j) ∈ concat ba)
      ∧ (∀ op i j, (op, i, j) ∈ concat ba → (opposite op, i, j) ∈ concat ab).
Proof.
  intros A B.
  assert (Ha : has_dims 2 2 A) by (split; [reflexivity|by repeat constructor]).
  assert (Hb : has_dims 2 2 B) by (split; [reflexivity|by repeat constructor]).
  assert (Hap : populated A) by (by repeat constructor).
  assert (Hbp : populated B) by (by repeat constructor).
  split; [done|]. exact (commands_symmetric 2 2 A B Ha Hb Hap Hbp).
Defined.

(** ** Tokens and written frames *)

Lemma introduces_module_app (a b : string) :
  introduces_module (a ++ b)%string = introduces_module a || introduces_module b.
Proof.
  unfold introduces_module. induction a as [|ch a IH]; [reflexivity|].
  cbn [String.append list_ascii_of_string existsb]. rewrite IH.
  apply orb_assoc.
Qed.

Lemma token_0_introduces (cmd : command) : introduces_module (token 0 cmd) = true.
Proof.
  destruct cmd as [[op i] j]. unfold token. cbn [Nat.eqb].
  rewrite !introduces_module_app.
  change (introduces_module " ") with true.
  rewrite orb_true_l, !orb_true_r. reflexivity.
Qed.

Lemma keeps_runs_from_seen (frame : list string) : keeps_runs_from true frame = true.
Proof.
  induction frame as [|tok frame IH]; [reflexivity|].
  simpl. by destruct (introduces_module tok).
Qed.

Lemma keeps_runs_from_prefix (seen : bool) (l1 l2 : list string) :
  keeps_runs_from seen (l1 ++ l2) = true → keeps_runs_from seen l1 = true.
Proof.
  revert seen. induction l1 as [|tok l1 IH]; intros seen; [reflexivity|].
  simpl. destruct (introduces_module tok); [apply IH|].
  destruct seen; simpl; [apply IH|done].
Qed.

Lemma grouped_commands_keep_runs (cmds : list (list command)) :
  keeps_runs (grouped_commands cmds) = true.
Proof.
  unfold keeps_runs, grouped_commands, grouped_commands_nested.
  induction cmds as [|grp cmds IH]; [reflexivity|].
  destruct grp as [|cmd grp]; [exact IH|].
  simpl. rewrite token_0_introduces. apply keeps_runs_from_seen.
Qed.

Lemma grouped_commands_length (cmds : list (list command)) :
  length (grouped_commands cmds) = length (concat cmds).
Proof.
  unfold grouped_commands, grouped_commands_nested.
  induction cmds as [|grp cmds IH]; [reflexivity|].
  simpl. by rewrite !length_app, length_imap, IH.
Qed.

(** X14. The serialiser gives one token per operation, and the token
    sequence as a whole keeps the runs: every token without a module
    follows a token that names one.  The packer returns a first frame,
    and the first frame keeps the runs too, so only a later frame can
    start inside the run of a module. *)
Theorem tokens_keep_runs :
  ∀ cmds : list (list command),
    length (grouped_commands cmds) = length (concat cmds)
    ∧ keeps_runs (grouped_commands cmds) = true
    ∧ ∃ packs first rest,
        pack (grouped_commands cmds) = Ok packs
        ∧ map pack_tokens packs = first :: rest
        ∧ keeps_runs first = true.
Proof.
  intros cmds. split; [apply grouped_commands_length|].
  split; [apply grouped_commands_keep_runs|].
  destruct (pack_inv (grouped_commands cmds)) as (packs & Hrun & Hne & Hcat & _).
  destruct packs as [|p packs]; [done|].
  exists (p :: packs), (pack_tokens p), (map pack_tokens packs).
  split; [exact Hrun|]. split; [reflexivity|].
  assert (Htok : concat (map pack_tokens (p :: packs)) = grouped_commands cmds).
  { unfold pack_tokens. rewrite <- concat_map, Hcat.
    apply fst_zip. by rewrite length_map. }
  pose proof (grouped_commands_keep_runs cmds) as Hk.
  rewrite <- Htok in Hk. simpl in Hk.
  by apply keeps_runs_from_prefix in Hk.
Qed.

Lemma string_length_app (a b : string) :
  String.length (a ++ b) = String.length a + String.length b.
Proof. induction a as [|ch a IH]; simpl; [reflexivity|by rewrite IH]. Qed.

(** [";".join(tokens)] with the terminator is as long as the loop of
    the packer counts: [len(token) + 1] for each token. *)
Lemma joined_length (tokens : list string) :
  tokens ≠ [] →
  String.length (String.concat ";" tokens) + 1 = sum_list_with token_cost tokens.
Proof.
  induction tokens as [|tok tokens IH]; intros Hne; [done|].
  destruct tokens as [|tok' tokens].
  - simpl. unfold token_cost. lia.
  - change (String.concat ";" (tok :: tok' :: tokens))
      with (tok ++ ";" ++ String.concat ";" (tok' :: tokens))%string.
    rewrite !string_length_app.
    change (sum_list_with token_cost (tok :: tok' :: tokens))
      with (token_cost tok + sum_list_with token_cost (tok' :: tokens)).
    rewrite <- IH by done. unfold token_cost. simpl. lia.
Qed.

Lemma packed_commands_fit (tokens : list string) :
  Forall (fun c => String.length c + 1 ≤ MAX_COMMAND_LENGTH) tokens →
  ∃ packs,
    pack tokens = Ok packs
    ∧ Forall (fun frame => String.length frame + 1 ≤ MAX_COMMAND_LENGTH)
             (packed_commands packs).
Proof.
  intros Hfit.
  destruct (pack_inv tokens) as (packs & Hrun & _ & Hcat & Hsum).
  exists packs. split; [exact Hrun|]. specialize (Hsum Hfit).
  assert (Hin : Forall (Forall (fun x => x ∈ zip tokens (map token_cost tokens))) packs).
  { rewrite <- Hcat. clear. apply Forall_forall. intros p Hp.
    apply Forall_forall. intros x Hx.
    apply list_elem_of_In, in_concat. exists p. split; assumption. }
  unfold packed_commands. apply Forall_map_intro.
  clear Hcat Hrun. induction Hsum as [|p ps Hp _ IH]; [constructor|].
  inversion Hin; subst. constructor; [|by apply IH].
  destruct p as [|x p]; [unfold MAX_COMMAND_LENGTH; simpl; lia|].
  rewrite joined_length by done.
  erewrite <- zip_cost_sum; eauto.
Qed.

(** X15. When every token fits on its own
    ([len(token) + 1 <= MAX_COMMAND_LENGTH]), every string the packer
    hands to [write], counted with the terminator the transport adds,
    is at most [MAX_COMMAND_LENGTH] (60) bytes long. *)
Theorem written_frames_within_limit (tokens : list string)
    (Hfit : Forall (fun c => String.length c + 1 ≤ MAX_COMMAND_LENGTH) tokens) :
  ∃ packs,
    pack tokens = Ok packs
    ∧ Forall (fun frame => String.length frame + 1 ≤ MAX_COMMAND_LENGTH)
             (packed_commands packs).
Proof. by apply packed_commands_fit. Qed.

Lemma written_frames_within_limit_witness :
  Forall (fun c => String.length c + 1 ≤ MAX_COMMAND_LENGTH) ["L0 0"; "L1"; "U3"]
  ∧ ∃ packs,
      pack ["L0 0"; "L1"; "U3"] = Ok packs
      ∧ Forall (fun frame => String.length frame + 1 ≤ MAX_COMMAND_LENGTH)
               (packed_commands packs).
Proof.
  assert (H : Forall (fun c => String.length c + 1 ≤ MAX_COMMAND_LENGTH)
                     ["L0 0"; "L1"; "U3"])
    by (repeat constructor; vm_compute; lia).
  split; [exact H|]. exact (written_frames_within_limit _ H).
Defined.

(** ** Reading the status *)

Lemma connections_unfold (c : Cytec) :
  let k := (modules (state c) + 1) * outputs (state c) in
  let silence := if answerback (state c) || echo (state c) || verbose (state c)
                 then ["A0 73;E0 73;V0 73"] else [] in
  connections c
  = if decide (k ≤ length (incoming (resource c)))
    then Ok {| resource := {| written := written (resource c) ++ silence ++ ["S"];
                              incoming := drop k (incoming (resource c)) |};
               state := with_connections (silent (state c))
                          (decode (take k (incoming (resource c)))) |}
    else Raise VisaIOError.
Proof.
  destruct c as [[w inc] [m o a e v cs]]. unfold connections, read_bytes, silenced.
  simpl. destruct (a || e || v); simpl;
    destruct (decide ((m + 1) * o ≤ length inc)); simpl; try reflexivity.
  by rewrite <- app_assoc.
Qed.

(** X16. [connections] raises [VisaIOError] exactly when fewer than
    [(modules + 1) * outputs] bytes arrive, and raises nothing else.
    When it returns it has consumed exactly that many bytes and left
    the rest, stored their decoding, kept [modules] and [outputs],
    cleared the three flags, and written the silence command (only if
    a flag was set) followed by ["S"]. *)
Theorem connections_outcome :
  ∀ c : Cytec,
    let k := (modules (state c) + 1) * outputs (state c) in
    (connections c = Raise VisaIOError ↔ length (incoming (resource c)) < k)
    ∧ (∀ e, connections c = Raise e → e = VisaIOError)
    ∧ ∀ c', connections c = Ok c' →
        incoming (resource c') = drop k (incoming (resource c))
        ∧ connections_of (state c') = decode (take k (incoming (resource c)))
        ∧ modules (state c') = modules (state c)
        ∧ outputs (state c') = outputs (state c)
        ∧ answerback (state c') = false ∧ echo (state c') = false
        ∧ verbose (state c') = false
        ∧ written (resource c')
          = written (resource c)
            ++ (if answerback (state c) || echo (state c) || verbose (state c)
                then ["A0 73;E0 73;V0 73"] else [])
            ++ ["S"].
Proof.
  intros c k. rewrite (connections_unfold c). fold k.
  destruct (decide (k ≤ length (incoming (resource c)))) as [Hk|Hk].
  - split; [split; [done|lia]|]. split; [done|].
    intros c' [= <-]. simpl. by repeat split.
  - split; [split; [lia|done]|]. split; [by intros e [= <-]|done].
Qed.

(** X17. Two status reads in a row send the silence command at most
    once: after a status read that returned, the next one writes
    ["S"] and nothing else. *)
Theorem connections_silences_once (c c1 c2 : Cytec)
    (H1 : connections c = Ok c1) (H2 : connections c1 = Ok c2) :
  written (resource c2) = written (resource c1) ++ ["S"].
Proof.
  destruct (connections_silent c c1 H1) as (Ha & He & Hv).
  rewrite (connections_unfold c1), Ha, He, Hv in H2. simpl in H2.
  case_decide; [|done]. by injection H2 as <-.
Qed.

Lemma connections_silences_once_witness :
  let c := {| resource := {| written := []; incoming := [byte_1; CR; byte_0; CR] |};
              state := mkState 1 1 true true false [[]] |} in
  let c1 := {| resource := {| written := ["A0 73;E0 73;V0 73"; "S"];
                              incoming := [byte_0; CR] |};
               state := mkState 1 1 false false false [[Some true]] |} in
  let c2 := {| resource := {| written := ["A0 73;E0 73;V0 73"; "S"; "S"];
                              incoming := [] |};
               state := mkState 1 1 false false false [[Some false]] |} in
  (connections c = Ok c1 ∧ connections c1 = Ok c2)
  ∧ written (resource c2) = written (resource c1) ++ ["S"].
Proof.
  intros c c1 c2. split; [by split|].
  exact (connections_silences_once c c1 c2 eq_refl eq_refl).
Defined.

(** X18. A session with [m] modules and [n >= 1] outputs that receives
    a status in wire form ([n] lines of [m] bits, each with its
    terminator) returns from [connections] with a matrix of [m] by [n]
    known cells, cell [(i, j)] being bit [i] of line [j], and leaves
    the bytes after the status unread. *)
Theorem connections_wire_form
    (c : Cytec) (lines : list (list bool)) (rest : list byte)
    (Hn : length lines = outputs (state c))
    (Hm : Forall (fun line => length line = modules (state c)) lines)
    (Hpos : 0 < outputs (state c))
    (Hin : incoming (resource c) = status_of_lines lines ++ rest) :
  ∃ c', connections c = Ok c'
        ∧ incoming (resource c') = rest
        ∧ has_dims (modules (state c)) (outputs (state c)) (connections_of (state c'))
        ∧ populated (connections_of (state c'))
        ∧ ∀ i j, i < modules (state c) → j < outputs (state c) →
            cell (connections_of (state c')) i j = Some <$> at_ lines j i.
Proof.
  set (m := modules (state c)) in *. set (n := outputs (state c)) in *.
  assert (Hlen : length (status_of_lines lines) = (m + 1) * n).
  { rewrite <- Hn. by apply status_of_lines_length. }
  assert (Hdec : decode (status_of_lines lines) = transpose (map (map Some) lines)).
  { unfold decode. by rewrite decode_rows_status_of_lines. }
  set (R := map (map (@Some bool)) lines) in *.
  assert (HRn : length R = n) by (unfold R; by rewrite length_map).
  assert (HRm : Forall (fun row => length row = m) R)
    by (unfold R; by apply Forall_length_map).
  assert (HR : R ≠ []) by (intros HR; rewrite HR in HRn; simpl in HRn; lia).
  assert (Hs : shortest_row R = m) by by apply shortest_row_rect.
  rewrite (connections_unfold c). fold m n. rewrite Hin.
  rewrite decide_True by (rewrite length_app; lia).
  eexists. split; [reflexivity|]. simpl.
  rewrite <- Hlen, drop_app_length, take_app_length, Hdec.
  split; [reflexivity|]. split; [|split].
  - split; [by rewrite transpose_length|]. rewrite <- HRn. apply transpose_columns.
  - apply Forall_transpose. unfold R. apply Forall_map_intro.
    apply Forall_forall. intros line _. apply Forall_map_intro.
    apply Forall_forall. by intros b _.
  - intros i j Hi Hj. change (cell (transpose R) i j) with (at_ (transpose R) i j).
    rewrite transpose_at, Hs, decide_True by done. apply at_map.
Qed.

Lemma connections_wire_form_witness :
  let lines := [[true; false]; [false; true]; [true; true]] in
  let c := {| resource := {| written := [];
                             incoming := status_of_lines lines ++ [byte_0] |};
              state := mkState 2 3 true false false [[]] |} in
  (length lines = outputs (state c)
   ∧ Forall (fun line => length line = modules (state c)) lines
   ∧ 0 < outputs (state c)
   ∧ incoming (resource c) = status_of_lines lines ++ [byte_0])
  ∧ ∃ c', connections c = Ok c'
          ∧ incoming (resource c') = [byte_0]
          ∧ has_dims 2 3 (connections_of (state c'))
          ∧ populated (connections_of (state c'))
          ∧ ∀ i j, i < 2 → j < 3 →
              cell (connections_of (state c')) i j = Some <$> at_ lines j i.
Proof.
  intros lines c.
  assert (H : Forall (fun line => length line = modules (state c)) lines)
    by (by repeat constructor).
  split; [repeat split; [exact H|simpl; lia]|].
  exact (connections_wire_form c lines [byte_0] eq_refl H ltac:(simpl; lia) eq_refl).
Defined.

(** ** Switching: outcomes *)

Lemma fold_left_write (frames : list string) (r : Resource) :
  fold_left write frames r
  = {| written := written r ++ frames; incoming := incoming r |}.
Proof.
  revert r. induction frames as [|f frames IH]; intros [w inc]; simpl.
  - by rewrite app_nil_r.
  - rewrite IH. simpl. by rewrite <- app_assoc.
Qed.

Lemma silenced_unfold (c : Cytec) :
  silenced c false
  = {| resource :=
         {| written := written (resource c)
                       ++ (if answerback (state c) || echo (state c) || verbose (state c)
                           then ["A0 73;E0 73;V0 73"] else []);
            incoming := incoming (resource c) |};
       state := silent (state c) |}.
Proof.
  destruct c as [[w inc] [m o a e v cs]]. unfold silenced. simpl.
  destruct (a || e || v); simpl; [reflexivity|by rewrite app_nil_r].
Qed.

(** The body of [set_connections], once the diff and the packer have
    returned. *)
Lemma set_connections_body_unfold (c : Cytec) (target : CytecConnections)
    (verify_after : bool) (cmds : list (list command))
    (packs : list (list (string * nat))) :
  commands (connections_of (state c)) target = Ok cmds →
  pack (grouped_commands cmds) = Ok packs →
  packs ≠ [] →
  let r := {| written := written (resource c)
                         ++ (if answerback (state c) || echo (state c)
                                || verbose (state c)
                             then ["A0 73;E0 73;V0 73"] else [])
                         ++ packed_commands packs;
              incoming := incoming (resource c) |} in
  set_connections_body c target verify_after
  = if verify_after
    then connections {| resource := r; state := silent (state c) |}
    else Ok {| resource := r; state := with_connections (state c) target |}.
Proof.
  intros Hcmds Hpack Hne r. unfold set_connections_body.
  rewrite silenced_unfold, Hcmds. simpl. rewrite Hpack. simpl.
  rewrite fold_left_write. simpl.
  rewrite <- app_assoc. fold r.
  destruct verify_after; [|reflexivity].
  destruct packs as [|p packs]; [done|]. simpl.
  by destruct (connections _).
Qed.

Lemma set_connections_body_raises (c : Cytec) (target : CytecConnections)
    (verify_after : bool) (e : exn) :
  set_connections_body c target verify_after = Raise e →
  e = TypeError ∨ (verify_after = true ∧ e = VisaIOError).
Proof.
  intros Hraise.
  destruct (matrix_commands_outcome (zip (connections_of (state c)) target) 0)
    as [[Hm _]|[(cmds & Hm & _) _]].
  - unfold set_connections_body, commands in Hraise. rewrite Hm in Hraise.
    left. by injection Hraise as <-.
  - destruct (pack_inv (grouped_commands cmds)) as (packs & Hpack & Hne & _).
    rewrite (set_connections_body_unfold c target verify_after cmds packs Hm Hpack Hne)
      in Hraise.
    destruct verify_after; [|done]. right. split; [reflexivity|].
    rewrite connections_unfold in Hraise. case_decide; [done|].
    by injection Hraise as <-.
Qed.

(** X19. [set_connections] raises nothing but [TypeError] (an unknown
    cell met by the diff) and [VisaIOError] (a status read that timed
    out); without the initial refresh and without verification only
    [TypeError].  It never raises [CytecSwitchingError], and the read
    of [t2] after the loop never fails, as the packer returns at least
    one frame. *)
Theorem set_connections_raises :
  ∀ (c : Cytec) (target : CytecConnections)
    (update_connections_first verify_after : bool) (e : exn),
    set_connections c target update_connections_first verify_after = Raise e →
    (e = TypeError ∨ e = VisaIOError)
    ∧ (update_connections_first = false → verify_after = false → e = TypeError).
Proof.
  intros c target u v e Hraise. unfold set_connections in Hraise.
  destruct u.
  - split; [|done]. rewrite connections_unfold in Hraise.
    case_decide; simpl in Hraise; [|right; by injection Hraise as <-].
    apply set_connections_body_raises in Hraise as [->|[_ ->]]; auto.
  - apply set_connections_body_raises in Hraise as [->|[-> ->]];
      (split; [auto|done]).
Qed.

Lemma set_connections_raises_witness :
  let c := {| resource := {| written := []; incoming := [] |};
              state := mkState 1 1 false false false [[None]] |} in
  set_connections c [[Some true]] false false = Raise TypeError
  ∧ (TypeError = TypeError ∨ TypeError = VisaIOError)
  ∧ (false = false → false = false → TypeError = TypeError).
Proof.
  intros c. split; [reflexivity|].
  exact (set_connections_raises c [[Some true]] false false TypeError eq_refl).
Defined.

(** X20. Without refresh and without verification, when none of the
    compared cells is unknown, [set_connections] returns: it reads no
    byte, appends to what was written the silence command (if a flag of
    the given state is on) and then the packed frames, and returns the
    given state with the target stored as it was passed, the three
    flags unchanged. *)
Theorem set_connections_unverified
    (c : Cytec) (target : CytecConnections)
    (Hknown : ¬ Exists unknown_pair (compared (connections_of (state c)) target)) :
  ∃ cmds packs,
    commands (connections_of (state c)) target = Ok cmds
    ∧ pack (grouped_commands cmds) = Ok packs
    ∧ set_connections c target false false
      = Ok {| resource :=
                {| written := written (resource c)
                              ++ (if answerback (state c) || echo (state c)
                                     || verbose (state c)
                                  then ["A0 73;E0 73;V0 73"] else [])
                              ++ packed_commands packs;
                   incoming := incoming (resource c) |};
              state := with_connections (state c) target |}.
Proof.
  destruct (matrix_commands_outcome (zip (connections_of (state c)) target) 0)
    as [[_ Hex]|[(cmds & Hm & _) _]]; [by destruct Hknown|].
  destruct (pack_inv (grouped_commands cmds)) as (packs & Hpack & Hne & _).
  exists cmds, packs. split; [exact Hm|]. split; [exact Hpack|].
  unfold set_connections.
  by rewrite (set_connections_body_unfold c target false cmds packs Hm Hpack Hne).
Qed.

Lemma set_connections_unverified_witness :
  let c := {| resource := {| written := ["S"]; incoming := [byte_1] |};
              state := mkState 1 2 false true false [[Some false; Some true]] |} in
  let target := [[Some true; Some false]] in
  ¬ Exists unknown_pair (compared (connections_of (state c)) target)
  ∧ set_connections c target false false
    = Ok {| resource := {| written := ["S"; "A0 73;E0 73;V0 73"; "L0 0;U1"];
                           incoming := [byte_1] |};
            state := mkState 1 2 false true false target |}.
Proof.
  intros c target.
  assert (H : ¬ Exists unknown_pair (compared (connections_of (state c)) target)).
  { intros H. repeat (apply Exists_cons in H as [[H|H]|H]; [done..|]).
    by apply Exists_nil in H. }
  split; [exact H|].
  destruct (set_connections_unverified c target H) as (cmds & packs & Hc & Hp & Hs).
  injection Hc as <-. injection Hp as <-. exact Hs.
Defined.

(** X21. With verification the matrix [set_connections] returns is the
    decoding of the status bytes read after the frames were written,
    whatever the target: the next [(modules + 1) * outputs] bytes, or,
    with the initial refresh, the ones after those. *)
Theorem set_connections_verified_matrix
    (c c' : Cytec) (target : CytecConnections) (update_connections_first : bool)
    (Hret : set_connections c target update_connections_first true = Ok c') :
  let k := (modules (state c) + 1) * outputs (state c) in
  connections_of (state c')
  = decode (take k (drop (if update_connections_first then k else 0)
                         (incoming (resource c))))
  ∧ incoming (resource c')
    = drop k (drop (if update_connections_first then k else 0)
                   (incoming (resource c))).
Proof.
  intros k.
  assert (Hbody : ∀ d d', set_connections_body d target true = Ok d' →
            connections_of (state d')
            = decode (take ((modules (state d) + 1) * outputs (state d))
                           (incoming (resource d)))
            ∧ incoming (resource d')
              = drop ((modules (state d) + 1) * outputs (state d))
                     (incoming (resource d))).
  { intros d d' Hd.
    destruct (matrix_commands_outcome (zip (connections_of (state d)) target) 0)
      as [[Hm _]|[(cmds & Hm & _) _]].
    - unfold set_connections_body, commands in Hd. by rewrite Hm in Hd.
    - destruct (pack_inv (grouped_commands cmds)) as (packs & Hpack & Hne & _).
      rewrite (set_connections_body_unfold d target true cmds packs Hm Hpack Hne) in Hd.
      rewrite connections_unfold in Hd. simpl in Hd.
      case_decide; [|done]. by injection Hd as <-. }
  unfold set_connections in Hret. destruct update_connections_first.
  - rewrite connections_unfold in Hret. fold k in Hret.
    case_decide; simpl in Hret; [|done].
    apply Hbody in Hret. simpl in Hret. exact Hret.
  - apply Hbody in Hret. by rewrite drop_0.
Qed.

Lemma set_connections_verified_matrix_witness :
  let c := {| resource := {| written := [];
                             incoming := [byte_0; CR; byte_0; CR; byte_1] |};
              state := mkState 1 1 true false false [[]] |} in
  let c' := {| resource := {| written := ["A0 73;E0 73;V0 73"; "S"; "L0 0"; "S"];
                              incoming := [byte_1] |};
               state := mkState 1 1 false false false [[Some false]] |} in
  set_connections c [[Some true]] true true = Ok c'
  ∧ connections_of (state c')
    = decode (take 2 (drop 2 (incoming (resource c))))
  ∧ incoming (resource c') = drop 2 (drop 2 (incoming (resource c))).
Proof.
  intros c c'. split; [reflexivity|].
  exact (set_connections_verified_matrix c c' [[Some true]] true eq_refl).
Defined.

(** ** The handshake *)

Lemma read_line_Some (bs line rest : list byte) :
  read_line bs = Some (line, rest) →
  bs = line ++ CR :: rest ∧ Forall (fun b => b ≠ CR) line.
Proof.
  revert line. induction bs as [|b bs IH]; intros line; [done|].
  simpl. destruct (Byte.eqb b CR) eqn:E.
  - apply Byte.byte_dec_bl in E. intros [= <- <-]. subst. by split.
  - destruct (read_line bs) as [[l r]|]; [|done].
    intros [= <- <-]. destruct (IH l eq_refl) as [-> Hl].
    split; [reflexivity|]. constructor; [by apply Byte.eqb_false|exact Hl].
Qed.

Lemma read_line_app (line rest : list byte) :
  Forall (fun b => b ≠ CR) line → read_line (line ++ CR :: rest) = Some (line, rest).
Proof.
  induction 1 as [|b line Hb _ IH]; [reflexivity|].
  simpl. rewrite IH.
  destruct (Byte.eqb b CR) eqn:E; [|reflexivity].
  apply Byte.byte_dec_bl in E. contradiction.
Qed.

Lemma string_of_list_byte_0 (line : list byte) :
  string_of_list_byte line = "0" → line = [byte_0].
Proof.
  intros H. apply (f_equal list_byte_of_string) in H.
  by rewrite list_byte_of_string_of_list_byte in H.
Qed.

Lemma configure_unfold (r : Resource) (s : CytecState) :
  configure r s
  = if decide (take 6 (incoming r) = config_ack)
    then Ok {| written := written r ++ [system_config s];
               incoming := drop 6 (incoming r) |}
    else Raise CytecInitializationError.
Proof.
  unfold configure, read_bytes.
  change (incoming (write r (system_config s))) with (incoming r).
  change (2 * 3) with 6.
  destruct (decide (6 ≤ length (incoming r))) as [Hlen|Hlen].
  - destruct (decide (take 6 (incoming r) = config_ack)); reflexivity.
  - rewrite decide_False; [reflexivity|].
    intros Hack. apply (f_equal length) in Hack.
    rewrite length_take in Hack. change (length config_ack) with 6 in Hack. lia.
Qed.

Lemma probe_raises (query : Resource → string → Resource * query_outcome)
    (r : Resource) (e : exn) :
  probe query r = Raise e →
  (e = CytecInitializationError ∨ e = VisaIOError ∨ e = UnicodeDecodeError)
  ∧ (e = UnicodeDecodeError → ∃ r' r'', query r' answerback_only = (r'', DecodeError)).
Proof.
  unfold probe.
  destruct (query r answerback_only) as [r1 [rv|st|]] eqn:Hq1.
  - destruct (String.eqb rv "0"); [done|]. intros [= <-]. split; [auto|done].
  - case_decide; [|intros [= <-]; split; [auto|done]].
    destruct (query r1 answerback_only) as [r2 [rv|st'|]] eqn:Hq2.
    + destruct (String.eqb rv "0"); [done|]. intros [= <-]. split; [auto|done].
    + intros [= <-]. split; [auto|done].
    + intros [= <-]. split; [auto|]. intros _. by exists r1, r2.
  - intros [= <-]. split; [auto|]. intros _. by exists r, r1.
Qed.

(** X22. [from_serial_resource] raises nothing but
    [CytecInitializationError], [VisaIOError] and
    [UnicodeDecodeError], whatever the transport answers; and it
    raises [UnicodeDecodeError] only when a probe was answered by a
    line that is not ASCII. *)
Theorem from_serial_resource_raises :
  ∀ (query : Resource → string → Resource * query_outcome)
    (r : Resource) (s : CytecState) (e : exn),
    from_serial_resource query r s = Raise e →
    (e = CytecInitializationError ∨ e = VisaIOError ∨ e = UnicodeDecodeError)
    ∧ (e = UnicodeDecodeError →
       ∃ r' r'', query r' answerback_only = (r'', DecodeError)).
Proof.
  intros query r s e. unfold from_serial_resource.
  destruct (probe query r) as [r1|e1] eqn:Hprobe; simpl;
    [|intros [= <-]; by apply (probe_raises query r)].
  rewrite configure_unfold. case_decide; simpl;
    [|intros [= <-]; split; [auto|done]].
  rewrite connections_unfold.
  case_decide; [done|intros [= <-]; split; [auto|done]].
Qed.

Lemma from_serial_resource_raises_witness :
  let r := {| written := []; incoming := ["255"%byte; CR] |} in
  from_serial_resource query_line r CytecState_default = Raise UnicodeDecodeError
  ∧ (UnicodeDecodeError = CytecInitializationError
     ∨ UnicodeDecodeError = VisaIOError
     ∨ UnicodeDecodeError = UnicodeDecodeError).
Proof.
  intros r. split; [reflexivity|].
  exact (proj1 (from_serial_resource_raises query_line r CytecState_default
                  UnicodeDecodeError eq_refl)).
Defined.

Lemma probe_query_line (r : Resource) :
  probe query_line r
  = match read_line (incoming r) with
    | Some (line, rest) =>
        if forallb ascii_byte line
        then if String.eqb (string_of_list_byte line) "0"
             then Ok {| written := written r ++ [answerback_only]; incoming := rest |}
             else Raise CytecInitializationError
        else Raise UnicodeDecodeError
    | None => Raise CytecInitializationError
    end.
Proof.
  unfold probe, query_line.
  change (incoming (write r answerback_only)) with (incoming r).
  destruct (read_line (incoming r)) as [[line rest]|]; [|by rewrite decide_False].
  by destruct (forallb ascii_byte line).
Qed.

(** X23. On a line without faults the handshake goes on to the status
    read exactly when the instrument answers ["0"] and the terminator
    to the probe and [b"0\r0\r0\r"] to the configuration; it has then
    written the probe and the configuration command and consumed those
    8 bytes.  When the line that answers the probe holds a byte that
    is not ASCII it raises [UnicodeDecodeError].  In every other case,
    a different, short or missing answer included, it raises
    [CytecInitializationError]. *)
Theorem handshake_on_clean_line :
  ∀ (r : Resource) (s : CytecState),
    (∀ tail, incoming r = [byte_0; CR] ++ config_ack ++ tail →
       from_serial_resource query_line r s
       = connections
           {| resource := {| written := written r
                                        ++ [answerback_only; system_config s];
                             incoming := tail |};
              state := s |})
    ∧ (∀ line rest,
         incoming r = line ++ CR :: rest → Forall (fun b => b ≠ CR) line →
         forallb ascii_byte line = false →
         from_serial_resource query_line r s = Raise UnicodeDecodeError)
    ∧ ((¬ ∃ tail, incoming r = [byte_0; CR] ++ config_ack ++ tail) →
       (∀ line rest,
          incoming r = line ++ CR :: rest → Forall (fun b => b ≠ CR) line →
          forallb ascii_byte line = true) →
       from_serial_resource query_line r s = Raise CytecInitializationError).
Proof.
  intros r s. unfold from_serial_resource. rewrite probe_query_line.
  split; [|split].
  - intros tail Hin. rewrite Hin.
    change (read_line ([byte_0; CR] ++ config_ack ++ tail))
      with (Some ([byte_0], config_ack ++ tail)).
    assert (Ea : forallb ascii_byte [byte_0] = true) by reflexivity.
    assert (E : String.eqb (string_of_list_byte [byte_0]) "0" = true) by reflexivity.
    cbv beta iota. rewrite Ea, E. cbn [mbind result_bind].
    rewrite configure_unfold.
    cbn [incoming written]. rewrite decide_True by reflexivity.
    cbn [mbind result_bind]. rewrite <- app_assoc. reflexivity.
  - intros line rest Hin Hcr Hascii.
    rewrite Hin, (read_line_app line rest Hcr). cbv beta iota.
    by rewrite Hascii.
  - intros Hno Hall.
    destruct (read_line (incoming r)) as [[line rest]|] eqn:Hline; [|reflexivity].
    apply read_line_Some in Hline as [Hline Hcr].
    rewrite (Hall line rest Hline Hcr).
    destruct (String.eqb (string_of_list_byte line) "0") eqn:Hrv; [|reflexivity].
    apply String.eqb_eq, string_of_list_byte_0 in Hrv. subst line.
    cbn [mbind result_bind]. rewrite configure_unfold. cbn [incoming written].
    case_decide as Hack; [|reflexivity].
    destruct Hno. exists (drop 6 rest).
    rewrite Hline, <- Hack, take_drop. reflexivity.
Qed.

Lemma handshake_on_clean_line_witness :
  let s := mkState 1 1 true false false [[]] in
  let r := {| written := [];
              incoming := [byte_0; CR] ++ config_ack ++ [byte_1; CR] |} in
  let r' := {| written := []; incoming := ["255"%byte] ++ CR :: [byte_0] |} in
  let r'' := {| written := []; incoming := [byte_1; CR] |} in
  (incoming r = [byte_0; CR] ++ config_ack ++ [byte_1; CR]
   ∧ from_serial_resource query_line r s
     = connections
         {| resource := {| written := written r ++ [answerback_only; system_config s];
                           incoming := [byte_1; CR] |};
            state := s |})
  ∧ (incoming r' = ["255"%byte] ++ CR :: [byte_0]
     ∧ Forall (fun b => b ≠ CR) ["255"%byte]
     ∧ forallb ascii_byte ["255"%byte] = false
     ∧ from_serial_resource query_line r' s = Raise UnicodeDecodeError)
  ∧ ((¬ ∃ tail, incoming r'' = [byte_0; CR] ++ config_ack ++ tail)
     ∧ (∀ line rest,
          incoming r'' = line ++ CR :: rest → Forall (fun b => b ≠ CR) line →
          forallb ascii_byte line = true)
     ∧ from_serial_resource query_line r'' s = Raise CytecInitializationError).
Proof.
  intros s r r' r''.
  assert (Hcr : Forall (fun b => b ≠ CR) ["255"%byte]) by (by repeat constructor).
  assert (Hno : ¬ ∃ tail, incoming r'' = [byte_0; CR] ++ config_ack ++ tail)
    by (intros [tail H]; discriminate H).
  assert (Hall : ∀ line rest,
            incoming r'' = line ++ CR :: rest → Forall (fun b => b ≠ CR) line →
            forallb ascii_byte line = true).
  { intros line rest Hin Hline.
    pose proof (read_line_app line rest Hline) as Hr.
    rewrite <- Hin in Hr. simpl in Hr. by injection Hr as <- <-. }
  split; [split; [reflexivity|]|split].
  - exact (proj1 (handshake_on_clean_line r s) [byte_1; CR] eq_refl).
  - split; [reflexivity|]. split; [exact Hcr|]. split; [reflexivity|].
    exact (proj1 (proj2 (handshake_on_clean_line r' s))
             ["255"%byte] [byte_0] eq_refl Hcr eq_refl).
  - split; [exact Hno|]. split; [exact Hall|].
    exact (proj2 (proj2 (handshake_on_clean_line r'' s)) Hno Hall).
Defined.

(** X24. When the first probe fails with a [VisaIOError], the handler
    looks at the status: for anything but a framing error it raises
    [CytecInitializationError] and sends nothing more.  After a
    framing error the probe is sent once more, on the resource as the
    failed query left it: answered ["0"] the handshake goes on as
    after a first probe answered ["0"]; another answer raises
    [CytecInitializationError]; a second failure of the read is not
    wrapped and leaves as [VisaIOError]; a line that is not ASCII
    leaves as [UnicodeDecodeError]. *)
Theorem handshake_after_framing_error
    (query : Resource → string → Resource * query_outcome)
    (r r1 : Resource) (s : CytecState) (last_status : StatusCode)
    (Hfailed : query r answerback_only = (r1, VisaError last_status)) :
  from_serial_resource query r s
  = if decide (last_status = error_serial_framing)
    then match query r1 answerback_only with
         | (r2, Reply rv) =>
             if String.eqb rv "0"
             then r3 ← configure r2 s; connections {| resource := r3; state := s |}
             else Raise CytecInitializationError
         | (_, VisaError _) => Raise VisaIOError
         | (_, DecodeError) => Raise UnicodeDecodeError
         end
    else Raise CytecInitializationError.
Proof.
  unfold from_serial_resource, probe. rewrite Hfailed.
  case_decide; [|reflexivity].
  destruct (query r1 answerback_only) as [r2 [rv|st|]]; [|reflexivity..].
  by destruct (String.eqb rv "0").
Qed.

Lemma handshake_after_framing_error_witness :
  let r := {| written := [];
              incoming := [byte_0; CR] ++ config_ack ++ [byte_1; CR] |} in
  query_framing_once r answerback_only
  = (write r answerback_only, VisaError error_serial_framing)
  ∧ from_serial_resource query_framing_once r (mkState 1 1 true false false [[]])
    = Ok {| resource :=
              {| written := [answerback_only; answerback_only; "P2 1 73;P10 1 73;P20 1 73";
                             "A0 73;E0 73;V0 73"; "S"];
                 incoming := [] |};
            state := mkState 1 1 false false false [[Some true]] |}.
Proof.
  intros r. split; [reflexivity|].
  rewrite (handshake_after_framing_error query_framing_once r
             (write r answerback_only) (mkState 1 1 true false false [[]])
             error_serial_framing eq_refl).
  reflexivity.
Defined.

(** ** Silencing *)

(** X25. [silenced] writes the silence command when it is forced or a
    flag of the state is on, and nothing otherwise; it reads nothing
    and keeps the matrix and the dimensions; the state it returns has
    the three flags off, so silencing a silenced session again writes
    nothing. *)
Theorem silenced_idempotent :
  ∀ (c : Cytec) (force : bool),
    silenced (silenced c force) false = silenced c force
    ∧ written (resource (silenced c force))
      = written (resource c)
        ++ (if force || answerback (state c) || echo (state c) || verbose (state c)
            then ["A0 73;E0 73;V0 73"] else [])
    ∧ incoming (resource (silenced c force)) = incoming (resource c)
    ∧ state (silenced c force) = silent (state c).
Proof.
  intros [[w inc] [m o a e v cs]] force. unfold silenced. simpl.
  destruct (force || a || e || v); simpl; repeat split; try reflexivity.
  by rewrite app_nil_r.
Qed.

(** ** Frames of a switch on a matrix of usual size *)

Lemma str_length_1000 (k : nat) : k < 1000 → String.length (str k) ≤ 3.
Proof.
  intros Hk.
  assert (Hall : forallb (fun k => String.length (str k) <=? 3) (seq 0 1000) = true)
    by (vm_compute; reflexivity).
  rewrite forallb_forall in Hall.
  apply Nat.leb_le, Hall, in_seq. lia.
Qed.

(** An operation of a matrix with fewer than 1000 modules and outputs. *)
Lemma token_length_small (k i j : nat) (op : string) :
  op = "L" ∨ op = "U" → i < 1000 → j < 1000 →
  String.length (token k (op, i, j)) + 1 ≤ MAX_COMMAND_LENGTH.
Proof.
  intros Hop Hi Hj. unfold token, MAX_COMMAND_LENGTH.
  pose proof (str_length_1000 i Hi). pose proof (str_length_1000 j Hj).
  assert (String.length op = 1) by (by destruct Hop as [-> | ->]).
  destruct (k =? 0); rewrite !string_length_app; simpl; lia.
Qed.

Lemma Forall_imap {A B} (P : B → Prop) (Q : A → Prop) (l : list A) :
  ∀ f : nat → A → B,
    (∀ k a, Q a → P (f k a)) → Forall Q l → Forall P (imap f l).
Proof.
  induction l as [|a l IH]; intros f Hf Hl; [constructor|].
  inversion Hl; subst. simpl. constructor; [by apply Hf|].
  apply IH; [|assumption]. intros k b Hb. by apply Hf.
Qed.

(** X26. For two fully populated matrices of the same dimensions, with
    at most 1000 modules and 1000 outputs, the diff and the packer
    return and every frame to be written, counted with its terminator,
    is at most [MAX_COMMAND_LENGTH] (60) bytes long. *)
Theorem switch_frames_within_limit
    (m n : nat) (current target : CytecConnections)
    (Hcur : has_dims m n current) (Htgt : has_dims m n target)
    (Hcurp : populated current) (Htgtp : populated target)
    (Hm : m ≤ 1000) (Hn : n ≤ 1000) :
  ∃ cmds packs,
    commands current target = Ok cmds
    ∧ pack (grouped_commands cmds) = Ok packs
    ∧ Forall (fun frame => String.length frame + 1 ≤ MAX_COMMAND_LENGTH)
             (packed_commands packs).
Proof.
  exists (map (diff_row n current target) (seq 0 m)).
  assert (Hfit : Forall (fun c => String.length c + 1 ≤ MAX_COMMAND_LENGTH)
                   (grouped_commands (map (diff_row n current target) (seq 0 m)))).
  { unfold grouped_commands, grouped_commands_nested. rewrite map_map.
    apply Forall_concat, Forall_map_intro, Forall_forall. intros i Hi.
    apply in_seq in Hi.
    apply (Forall_imap _ (fun cmd : command =>
             let '(op, i', j) := cmd in
             (op = "L" ∨ op = "U") ∧ i' < 1000 ∧ j < 1000)).
    - intros k [[op i'] j] (Hop & Hi' & Hj). by apply token_length_small.
    - apply Forall_forall. intros [[op i'] j] Hin.
      apply list_elem_of_In in Hin. unfold diff_row in Hin.
      apply list_elem_of_bind in Hin as (j0 & Hin & Hj0).
      apply elem_of_seq in Hj0. unfold diff_cell in Hin.
      destruct (decide (cell current i j0 ≠ cell target i j0));
        [|by apply elem_of_nil in Hin].
      apply list_elem_of_singleton in Hin. injection Hin as -> -> ->.
      split; [case_decide; auto|lia]. }
  destruct (packed_commands_fit _ Hfit) as (packs & Hpack & Hframes).
  exists packs. split; [by apply (commands_spec m n)|]. by split.
Qed.

Lemma switch_frames_within_limit_witness :
  let current := [falses 16; falses 16] in
  let target := [Some true :: falses 15; trues 16] in
  (has_dims 2 16 current ∧ has_dims 2 16 target
   ∧ populated current ∧ populated target ∧ 2 ≤ 1000 ∧ 16 ≤ 1000)
  ∧ ∃ cmds packs,
      commands current target = Ok cmds
      ∧ pack (grouped_commands cmds) = Ok packs
      ∧ Forall (fun frame => String.length frame + 1 ≤ MAX_COMMAND_LENGTH)
               (packed_commands packs).
Proof.
  intros current target.
  assert (Hc : has_dims 2 16 current) by (split; [reflexivity|by repeat constructor]).
  assert (Ht : has_dims 2 16 target) by (split; [reflexivity|by repeat constructor]).
  assert (Hcp : populated current) by (by repeat constructor).
  assert (Htp : populated target) by (by repeat constructor).
  split; [split; [exact Hc|split; [exact Ht|split; [exact Hcp|split; [exact Htp|lia]]]]|].
  exact (switch_frames_within_limit 2 16 current target Hc Ht Hcp Htp
           ltac:(lia) ltac:(lia)).
Defined.

(** ** The status decoder, byte by byte *)

Lemma dict_get_relay_states (b : byte) : dict_get relay_states b = cell_of_byte b.
Proof.
  unfold cell_of_byte.
  destruct (decide (b = byte_0)) as [->|H0]; [reflexivity|].
  destruct (decide (b = byte_1)) as [->|H1]; [reflexivity|].
  by apply relay_states_other.
Qed.

Lemma split_byte_line (line rest : list byte) :
  Forall (fun b => b ≠ CR) line →
  split CR (line ++ CR :: rest) = line :: split CR rest.
Proof.
  induction 1 as [|b line Hb _ IH]; [reflexivity|].
  simpl. rewrite IH.
  destruct (Byte.eqb b CR) eqn:E; [|reflexivity].
  apply Byte.byte_dec_bl in E. contradiction.
Qed.

Lemma split_byte_lines (lines : list (list byte)) :
  Forall (Forall (fun b => b ≠ CR)) lines →
  split CR (concat (map (fun line => line ++ [CR]) lines)) = lines ++ [[]].
Proof.
  induction 1 as [|line lines Hline _ IH]; [reflexivity|].
  simpl. rewrite <- app_assoc. simpl. by rewrite split_byte_line, IH.
Qed.

Lemma decode_cell_of_byte (status : list byte) :
  decode status
  = transpose (map (map cell_of_byte) (removelast (split CR status))).
Proof.
  unfold decode, decode_rows. f_equal. apply map_ext. intros seg.
  apply map_ext. apply dict_get_relay_states.
Qed.

(** C3 (amended). The status decoder maps byte ['0'] to disconnected and
    byte ['1'] to connected, and maps every other byte to an unknown
    cell ([None]) without failing: the matrix is the transposition of
    the received lines mapped byte by byte, and for a response of
    [n >= 1] lines of [m] bytes, each followed by the terminator, it
    has [m] modules and [n] outputs and its cell [(i, j)] is the image
    of byte [i] of line [j].  A matrix decoded from a response whose
    bytes are all ['0'], ['1'] or the terminator has no unknown
    cell. *)
Theorem decoded_cells (status : list byte) :
  (cell_of_byte byte_0 = Some false ∧ cell_of_byte byte_1 = Some true
   ∧ ∀ b, b ≠ byte_0 → b ≠ byte_1 → cell_of_byte b = None)
  ∧ decode status
    = transpose (map (map cell_of_byte) (removelast (split CR status)))
  ∧ (∀ (m n : nat) (lines : list (list byte)),
       length lines = n → Forall (fun line => length line = m) lines → 0 < n →
       Forall (Forall (fun b => b ≠ CR)) lines →
       status = concat (map (fun line => line ++ [CR]) lines) →
       has_dims m n (decode status)
       ∧ ∀ i j b, at_ lines j i = Some b →
           cell (decode status) i j = Some (cell_of_byte b))
  ∧ (Forall status_byte status → populated (decode status)).
Proof.
  split; [|split; [apply decode_cell_of_byte|split; [|apply decode_populated]]].
  { split; [reflexivity|]. split; [reflexivity|].
    intros b H0 H1. unfold cell_of_byte. by rewrite !decide_False. }
  intros m n lines Hn Hm Hpos Hcr ->.
  rewrite decode_cell_of_byte, split_byte_lines, removelast_last by done.
  set (R := map (map cell_of_byte) lines).
  assert (HRn : length R = n) by (unfold R; by rewrite length_map).
  assert (HRm : Forall (fun row => length row = m) R)
    by (unfold R; by apply Forall_length_map).
  assert (HR : R ≠ []) by (intros HR; rewrite HR in HRn; simpl in HRn; lia).
  assert (Hs : shortest_row R = m) by by apply shortest_row_rect.
  split.
  - split; [by rewrite transpose_length|]. rewrite <- HRn. apply transpose_columns.
  - intros i j b Hb.
    assert (Hi : i < m).
    { unfold at_ in Hb. destruct (lines !! j) as [line|] eqn:Hline; [|done].
      simpl in Hb. apply lookup_lt_Some in Hb.
      pose proof (Forall_lookup_1 _ _ _ _ Hm Hline) as Hl. simpl in Hl. lia. }
    change (cell (transpose R) i j) with (at_ (transpose R) i j).
    rewrite transpose_at, Hs, decide_True by done.
    unfold R. by rewrite at_map, Hb.
Qed.

Lemma decoded_cells_witness :
  let lines := [["1"%byte; "0"%byte]; ["2"%byte; "1"%byte]] in
  let status := ["1"%byte; "0"%byte; CR; "2"%byte; "1"%byte; CR] in
  (length lines = 2 ∧ Forall (fun line => length line = 2) lines ∧ 0 < 2
   ∧ Forall (Forall (fun b => b ≠ CR)) lines
   ∧ status = concat (map (fun line => line ++ [CR]) lines))
  ∧ has_dims 2 2 (decode status)
  ∧ cell (decode status) 0 0 = Some (Some true)
  ∧ cell (decode status) 1 0 = Some (Some false)
  ∧ cell (decode status) 0 1 = Some None
  ∧ (Forall status_byte [byte_1; byte_0; CR; byte_0; byte_1; CR]
     ∧ populated (decode [byte_1; byte_0; CR; byte_0; byte_1; CR])).
Proof.
  intros lines status.
  assert (Hm : Forall (fun line => length line = 2) lines) by (by repeat constructor).
  assert (Hcr : Forall (Forall (fun b => b ≠ CR)) lines) by (by repeat constructor).
  assert (Hb : Forall status_byte [byte_1; byte_0; CR; byte_0; byte_1; CR])
    by (repeat constructor; unfold status_byte; auto).
  destruct (proj1 (proj2 (proj2 (decoded_cells status)))
              2 2 lines eq_refl Hm ltac:(lia) Hcr eq_refl) as [Hdims Hcells].
  split;
    [split; [reflexivity|split; [exact Hm|split; [lia|split; [exact Hcr|reflexivity]]]]|].
  split; [exact Hdims|].
  split; [exact (Hcells 0 0 "1"%byte eq_refl)|].
  split; [exact (Hcells 1 0 "0"%byte eq_refl)|].
  split; [exact (Hcells 0 1 "2"%byte eq_refl)|].
  split; [exact Hb|].
  exact (proj2 (proj2 (proj2
    (decoded_cells [byte_1; byte_0; CR; byte_0; byte_1; CR]))) Hb).
Defined.
